(** * svg2dxf: conversion of SVG paths to DXF polylines

    A shallow embedding of [hebrew-2026-02-23/svg2dxf.py].  The script reads
    the [width], [height] and [viewBox] attributes of an SVG document,
    samples every path at ten points per millimetre, removes consecutive
    near-duplicates and adds the surviving chains to a DXF model space.

    Python floats are IEEE 754 binary64 numbers and are modelled by Rocq's
    primitive floats; Python integers are [Z]; exceptions are an explicit
    result type.  Attribute strings are taken to be ASCII.

    A conversion takes the paths and the attributes that svgpathtools returns
    for one file.  The call [path.point(t)] returns on a path whose length is
    not zero, and the conversion is modelled on such paths; the sampling loop
    is modelled as well on the paths on which the call raises.  The loop over
    the files takes the listing of the input folder and the parser as inputs
    and records the files it saves; the creation of the output folder is
    outside the model. *)

From Stdlib Require Import ZArith Floats Lia Ascii.
From stdpp Require Import gmap strings list.

Set Warnings "-inexact-float".
Local Open Scope Z_scope.

(** ** Python builtins used by the script *)

Module Py.

Inductive exn :=
  ValueError | IndexError | ZeroDivisionError | OverflowError | RuntimeError.

Inductive result (A : Type) :=
| Ok (a : A)
| Raise (e : exn).
Arguments Ok {A} a.
Arguments Raise {A} e.

Definition bind {A B} (r : result A) (k : A -> result B) : result B :=
  match r with
  | Ok a => k a
  | Raise e => Raise e
  end.

(** [int(x)] on a float: truncation towards zero; infinities and NaN raise. *)
Definition int_of_spec_float (f : spec_float) : result Z :=
  match f with
  | S754_zero _ => Ok 0
  | S754_finite s m e => Ok (cond_Zopp s (Z.shiftl (Zpos m) e))
  | S754_infinity _ => Raise OverflowError
  | S754_nan => Raise ValueError
  end.

Definition int_of_float (x : float) : result Z :=
  int_of_spec_float (Prim2SF x).

(** [float(k)] on an int: the nearest float, or OverflowError. *)
Definition float_of_int (k : Z) : result float :=
  match binary_normalize prec emax k 0 false with
  | S754_infinity _ => Raise OverflowError
  | f => Ok (SF2Prim f)
  end.

(** [a / b] on floats. *)
Definition float_truediv (a b : float) : result float :=
  if (b =? 0)%float then Raise ZeroDivisionError else Ok (a / b)%float.

(** [a / b] on ints: the correctly rounded quotient. *)
Definition int_truediv (a b : Z) : result float :=
  match a, b with
  | _, Z0 => Raise ZeroDivisionError
  | Z0, _ => Ok (SF2Prim (S754_zero (b <? 0)))
  | _, _ =>
      match SFdiv prec emax
              (S754_finite (a <? 0) (Z.to_pos (Z.abs a)) 0)
              (S754_finite (b <? 0) (Z.to_pos (Z.abs b)) 0) with
      | S754_infinity _ => Raise OverflowError
      | f => Ok (SF2Prim f)
      end
  end.

(** [range(n)] *)
Definition range (n : Z) : list Z := seqZ 0 n.

(** [l[i]] for a non-negative constant index. *)
Definition getitem {A} (l : list A) (i : nat) : result A :=
  match l !! i with
  | Some a => Ok a
  | None => Raise IndexError
  end.

(** *** Strings *)

(** [s.endswith(suffix)] *)
Definition endswith (s suffix : string) : bool :=
  let n := String.length s in
  let k := String.length suffix in
  (k <=? n)%nat && String.eqb (String.substring (n - k) k s) suffix.

(** [s[:-k]] *)
Definition drop_last (k : nat) (s : string) : string :=
  String.substring 0 (String.length s - k) s.

(** [str.isspace] on an ASCII character. *)
Definition isspace (c : ascii) : bool :=
  let n := N_of_ascii c in
  (((9 <=? n) && (n <=? 13)) || ((28 <=? n) && (n <=? 32)))%N.

(** [s.split()]: the maximal runs of non-whitespace characters. *)
Fixpoint split_from (word : string) (s : string) : list string :=
  match s with
  | EmptyString => if String.eqb word "" then [] else [word]
  | String c s' =>
      if isspace c
      then (if String.eqb word "" then split_from "" s'
            else word :: split_from "" s')
      else split_from (word +:+ String c "") s'
  end.

Definition split (s : string) : list string := split_from "" s.

(** *** [float(s)] on a string *)

(** The characters [float()] strips: space, \t, \n, \v, \f, \r. *)
Definition is_float_space (c : ascii) : bool :=
  let n := N_of_ascii c in
  (((9 <=? n) && (n <=? 13)) || (n =? 32))%N.

Fixpoint lstrip (s : string) : string :=
  match s with
  | String c s' => if is_float_space c then lstrip s' else s
  | EmptyString => s
  end.

Definition strip (s : string) : string :=
  String.rev (lstrip (String.rev (lstrip s))).

Definition digit (c : ascii) : option N :=
  let n := N_of_ascii c in
  if ((48 <=? n) && (n <=? 57))%N then Some (n - 48)%N else None.

(** The tail [(["_"] digit)*] of a digit part: the digits read and the
    remaining input. *)
Fixpoint digits_tail (s : string) : list N * string :=
  match s with
  | String c s' =>
      match digit c with
      | Some d => let '(ds, r) := digits_tail s' in (d :: ds, r)
      | None =>
          if Ascii.eqb c "_" then
            match s' with
            | String c' s'' =>
                match digit c' with
                | Some d => let '(ds, r) := digits_tail s'' in (d :: ds, r)
                | None => ([], s)
                end
            | EmptyString => ([], s)
            end
          else ([], s)
      end
  | EmptyString => ([], s)
  end.

(** [digitpart ::= digit (["_"] digit)*] *)
Definition digitpart (s : string) : option (list N * string) :=
  match s with
  | String c s' =>
      match digit c with
      | Some d => let '(ds, r) := digits_tail s' in Some (d :: ds, r)
      | None => None
      end
  | EmptyString => None
  end.

Definition N_of_digits (ds : list N) : N :=
  fold_left (fun acc d => 10 * acc + d)%N ds 0%N.

(** [number ::= [digitpart] "." digitpart | digitpart ["."]]: the integer
    digits, the fraction digits and the remaining input. *)
Definition number (s : string) : option (list N * list N * string) :=
  match digitpart s with
  | Some (ip, String "." r) =>
      match digitpart r with
      | Some (fp, r') => Some (ip, fp, r')
      | None => Some (ip, [], r)
      end
  | Some (ip, r) => Some (ip, [], r)
  | None =>
      match s with
      | String "." r =>
          match digitpart r with
          | Some (fp, r') => Some ([], fp, r')
          | None => None
          end
      | _ => None
      end
  end.

Definition sign (s : string) : bool * string :=
  match s with
  | String "-" r => (true, r)
  | String "+" r => (false, r)
  | _ => (false, s)
  end.

(** [exponent ::= ("e" | "E") [sign] digitpart], up to the end of the
    input; no exponent is exponent 0. *)
Definition exponent (s : string) : option Z :=
  match s with
  | EmptyString => Some 0
  | String c r =>
      if Ascii.eqb c "e" || Ascii.eqb c "E" then
        let '(neg, r') := sign r in
        match digitpart r' with
        | Some (ds, EmptyString) => Some (cond_Zopp neg (Z.of_N (N_of_digits ds)))
        | _ => None
        end
      else None
  end.

(** The float nearest to [(-1)^neg * m * 10^e10]. *)
Definition float_of_decimal (neg : bool) (m : N) (e10 : Z) : float :=
  match m with
  | N0 => SF2Prim (S754_zero neg)
  | Npos p =>
      SF2Prim
        (if 0 <=? e10
         then binary_normalize prec emax (cond_Zopp neg (Zpos p * 10 ^ e10)) 0 false
         else SFdiv prec emax (S754_finite neg p 0)
                (S754_finite false (Z.to_pos (10 ^ (- e10))) 0))
  end.

Definition lower (c : ascii) : ascii :=
  let n := N_of_ascii c in
  if ((65 <=? n) && (n <=? 90))%N then ascii_of_N (n + 32) else c.

Fixpoint lower_string (s : string) : string :=
  match s with
  | EmptyString => EmptyString
  | String c s' => String (lower c) (lower_string s')
  end.

(** [float(s)]: optional sign, then a decimal number with optional
    exponent, or inf / infinity / nan in any case; surrounding whitespace
    is ignored.  Anything else is a ValueError. *)
Definition float_of_str (s : string) : result float :=
  let '(neg, r) := sign (strip s) in
  let word := lower_string r in
  if String.eqb word "inf" || String.eqb word "infinity"
  then Ok (if neg then neg_infinity else infinity)
  else if String.eqb word "nan" then Ok nan
  else
    match number r with
    | Some (ip, fp, r') =>
        match exponent r' with
        | Some e =>
            Ok (float_of_decimal neg (N_of_digits (ip ++ fp))
                  (e - Z.of_nat (length fp)))
        | None => Raise ValueError
        end
    | None => Raise ValueError
    end.

End Py.

Import Py.

Notation "x <- r ; k" := (Py.bind r (fun x => k))
  (at level 100, r at next level, right associativity).

(** ** The script *)

Definition POINTS_PER_MM : Z := 10.

(** A complex number, as returned by [path.point(t)]. *)
Record complex := Complex { real : float; imag : float }.

(** A path of svgpathtools on which [path.point(t)] returns at every
    parameter, as it does on a path whose length is not zero: the script only
    calls [path.length()] and [path.point(t)].  The paths on which the call
    raises are described by [Curve] below. *)
Record Path := { Path_length : float; Path_point : float -> complex }.

Definition point : Type := float * float.

(** What the script prints; the floats are kept as values, not formatted. *)
Inductive line :=
| SvgLine (filename : string) (svg_width_mm svg_height_mm : float)
| PathLine (path_idx : nat) (path_length_mm : float) (npoints : nat)
| ConvertedLine (filename : string).

(** The state a conversion acts on: the model space of the DXF document
    under construction and the console. *)
Record world := World { msp : list (list point); stdout : list line }.

(** Computations that act on the world and may raise. *)
Definition M (A : Type) : Type := world -> world * result A.

Definition ret {A} (a : A) : M A := fun w => (w, Ok a).

Definition mbind {A B} (c : M A) (k : A -> M B) : M B :=
  fun w => match c w with
           | (w', Ok a) => k a w'
           | (w', Raise e) => (w', Raise e)
           end.

Definition lift {A} (r : result A) : M A := fun w => (w, r).

Definition print (l : line) : M unit :=
  fun w => (World (msp w) (stdout w ++ [l]), Ok tt).

(** [msp.add_lwpolyline(points, format="xy")] *)
Definition add_lwpolyline (points : list point) : M unit :=
  fun w => (World (msp w ++ [points]) (stdout w), Ok tt).

Notation "x <~ c ; k" := (mbind c (fun x => k))
  (at level 100, c at next level, right associativity).
Notation "c ;; k" := (mbind c (fun _ => k))
  (at level 100, right associativity).

(** [for i, x in enumerate(xs): body(i, x)], counting from [i]. *)
Fixpoint for_enumerate {A} (i : nat) (xs : list A) (body : nat -> A -> M unit)
  : M unit :=
  match xs with
  | [] => ret tt
  | x :: xs' => body i x ;; for_enumerate (S i) xs' body
  end.

(** Lines 22-24: the attributes with their defaults. *)
Definition width (svg_attributes : gmap string string) : string :=
  default "21.6mm" (svg_attributes !! "width").

Definition height (svg_attributes : gmap string string) : string :=
  default "37.8mm" (svg_attributes !! "height").

Definition viewbox (svg_attributes : gmap string string) : list string :=
  split (default "-40 -30 12 21" (svg_attributes !! "viewBox")).

(** Lines 27-30 and 32-35: a length with an optional mm suffix. *)
Definition mm_to_float (s : string) : result float :=
  if endswith s "mm" then float_of_str (drop_last 2 s) else float_of_str s.

Definition svg_width_mm (svg_attributes : gmap string string) : result float :=
  mm_to_float (width svg_attributes).

Definition svg_height_mm (svg_attributes : gmap string string) : result float :=
  mm_to_float (height svg_attributes).

(** Line 51 *)
Definition scale_factor (svg_width_mm : float) (viewbox : list string)
  : result float :=
  v <- getitem viewbox 2;
  d <- float_of_str v;
  float_truediv svg_width_mm d.

(** Line 52 *)
Definition path_length_mm (path : Path) (scale_factor : float) : float :=
  (Path_length path * scale_factor)%float.

(** Line 55 *)
Definition num_samples (path_length_mm : float) : result Z :=
  d <- float_of_int POINTS_PER_MM;
  k <- int_of_float (path_length_mm * d)%float;
  Ok (Z.max 2 k).

(** Lines 59-64: the sample of index [i]. *)
Definition sample (path : Path) (scale_factor : float) (num_samples i : Z)
  : result point :=
  t <- int_truediv i num_samples;
  let point := Path_point path t in
  let x := (real point * scale_factor)%float in
  let y := (imag point * scale_factor)%float in
  Ok (x, y).

Fixpoint collect {A B} (f : A -> result B) (xs : list A) : result (list B) :=
  match xs with
  | [] => Ok []
  | x :: xs' => b <- f x; bs <- collect f xs'; Ok (b :: bs)
  end.

(** Lines 57-64 *)
Definition polyline_points (path : Path) (scale_factor : float) (num_samples : Z)
  : result (list point) :=
  collect (sample path scale_factor num_samples) (range (num_samples + 1)).

(** Lines 69-73: the test that keeps [p] after the points kept so far. *)
Definition far (p q : point) : bool :=
  (0.01 <? abs (p.1 - q.1))%float || (0.01 <? abs (p.2 - q.2))%float.

Definition keeps (unique_points : list point) (p : point) : bool :=
  match last unique_points with
  | None => true
  | Some q => far p q
  end.

(** Lines 67-74 *)
Definition unique_points (polyline_points : list point) : list point :=
  fold_left (fun kept p => if keeps kept p then kept ++ [p] else kept)
    polyline_points [].

(** Lines 76-80 *)
Definition emit (path_idx : nat) (path_length_mm : float)
    (unique_points : list point) : M unit :=
  if (1 <? length unique_points)%nat
  then add_lwpolyline unique_points ;;
       print (PathLine path_idx path_length_mm (length unique_points))
  else ret tt.

(** Lines 47-80: the body of the loop over the paths. *)
Definition convert_path (svg_width_mm : float) (viewbox : list string)
    (path_idx : nat) (path : Path) : M unit :=
  scale <~ lift (scale_factor svg_width_mm viewbox);
  let length_mm := path_length_mm path scale in
  n <~ lift (num_samples length_mm);
  points <~ lift (polyline_points path scale n);
  emit path_idx length_mm (unique_points points).

(** Lines 19-83 for one file that svgpathtools has parsed into [paths] and
    [svg_attributes]; the document is saved when this returns [Ok]. *)
Definition convert (filename : string) (paths : list Path)
    (svg_attributes : gmap string string) : M unit :=
  let viewbox := viewbox svg_attributes in
  w <~ lift (svg_width_mm svg_attributes);
  h <~ lift (svg_height_mm svg_attributes);
  print (SvgLine filename w h) ;;
  for_enumerate 0 paths (convert_path w viewbox) ;;
  print (ConvertedLine filename).

(** A conversion starts from an empty document (lines 40-44); its version
    and unit settings are constants that no later line reads. *)
Definition new : world := World [] [].

(** The polylines of the document saved for a file, or the exception that
    ended its conversion. *)
Definition saved (filename : string) (paths : list Path)
    (svg_attributes : gmap string string) : result (list (list point)) :=
  match convert filename paths svg_attributes new with
  | (w, Ok _) => Ok (msp w)
  | (_, Raise e) => Raise e
  end.

(** ** Example paths *)

(** A degenerate path: every parameter gives the point 3+4j. *)
Definition dot_path : Path :=
  {| Path_length := 0; Path_point := fun _ => Complex 3 4 |}.

(** A straight segment from 0 to 24 on the real axis. *)
Definition segment_path : Path :=
  {| Path_length := 24; Path_point := fun t => Complex (24 * t) 0 |}.

(** A path of length 0 that jumps from 0 to 10 at t = 0.5. *)
Definition jump_path : Path :=
  {| Path_length := 0;
     Path_point := fun t => if (t <? 0.5)%float then Complex 0 0 else Complex 10 0 |}.

Definition default_viewbox : list string := ["-40"; "-30"; "12"; "21"].

(** The document of the end-to-end scenario. *)
Definition scenario_attributes : gmap string string :=
  {[ "width" := "21.6mm"; "height" := "37.8mm"; "viewBox" := "-40 -30 12 21" ]}.

(** ** Paths on which [path.point] raises

    The call [path.point(t)] of line 60 can raise.  On a path without
    segments svgpathtools raises ValueError at every parameter, and on a path
    of length zero it returns at the parameters 0.0 and 1.0 only and raises
    RuntimeError in between.  A [Curve] is a path with this error path, and
    [curve_points] is the loop of lines 57-64 over it: the first exception
    ends the loop, and no point is kept. *)

Record Curve := { Curve_length : float; Curve_point : float -> result complex }.


(** Lines 59-64: the sample of index [i]. *)
Definition curve_sample (path : Curve) (scale_factor : float) (num_samples i : Z)
  : result point :=
  t <- int_truediv i num_samples;
  point <- Curve_point path t;
  let x := (real point * scale_factor)%float in
  let y := (imag point * scale_factor)%float in
  Ok (x, y).

(** Lines 57-64 *)
Definition curve_points (path : Curve) (scale_factor : float) (num_samples : Z)
  : result (list point) :=
  collect (curve_sample path scale_factor num_samples) (range (num_samples + 1)).

(** A [Path] is a curve whose point query never raises. *)
Definition curve_of (path : Path) : Curve :=
  {| Curve_length := Path_length path;
     Curve_point := fun t => Ok (Path_point path t) |}.



(** A segment of 0.004 units on the real axis: shorter than the tolerance of
    the deduplication at the default scale. *)
Definition short_path : Path :=
  {| Path_length := 0.004; Path_point := fun t => Complex (0.004 * t) 0 |}.

(** ** Definitions used in the statements and proofs *)

(** What the loop body computes for a path of a document: the scale factor,
    the sampled points and the deduplicated chain. *)
Definition geometry (svg_attributes : gmap string string) (path : Path)
  : result (float * list point * list point) :=
  w <- svg_width_mm svg_attributes;
  scale <- scale_factor w (viewbox svg_attributes);
  n <- num_samples (path_length_mm path scale);
  points <- polyline_points path scale n;
  Ok (scale, points, unique_points points).

(** Worlds with the same model space: the console is not compared. *)
Definition same_msp (r1 r2 : world * result unit) : Prop :=
  msp r1.1 = msp r2.1 /\ r1.2 = r2.2.

(** The chain kept from [l] when the last point kept so far is [q]. *)
Fixpoint chain_after (q : option point) (l : list point) : list point :=
  match l with
  | [] => []
  | p :: l' =>
      if match q with None => true | Some q => far p q end
      then p :: chain_after (Some p) l'
      else chain_after q l'
  end.

(** Round to nearest, ties to even, of [M / 2^k]. *)
Definition rne (M k : Z) : Z :=
  let q := M / 2 ^ k in
  match 2 * (M mod 2 ^ k) ?= 2 ^ k with
  | Lt => q
  | Eq => if Z.even q then q else q + 1
  | Gt => q + 1
  end.

(** The number of low bits that rounding [M * 2^E] to binary64 drops. *)
Definition shift_of (M E : Z) : Z :=
  Z.max 0 (fexp prec emax (Zdigits2 M + E) - E).

(** The binary64 rounding of [M * 2^E], in units of [2^E]. *)
Definition rounded (M E : Z) : Z :=
  rne M (shift_of M E) * 2 ^ shift_of M E.

(** The exponent that rounding [M * 2^E] reaches stays in range. *)
Definition in_range (M E : Z) : bool :=
  let n := shift_of M E in
  E + n + (if rne M n =? 2 ^ 53 then 1 else 0) <=? 971.

(** The floor of a float, by which the spec describes the sample count;
    infinities and NaN have none. *)
Definition floor_of_float (x : float) : option Z :=
  match Prim2SF x with
  | S754_zero _ => Some 0
  | S754_finite s m e => Some (Z.shiftl (cond_Zopp s (Zpos m)) e)
  | _ => None
  end.

(** A float that is neither infinite nor NaN. *)
Definition finite_float (x : float) : bool :=
  match Prim2SF x with
  | S754_zero _ | S754_finite _ _ _ => true
  | _ => false
  end.

(** ** The loop over the files

    Lines 9-16 and 82-83.  [os.listdir] gives the names in the input folder
    and svgpathtools parses a file into its paths and its attributes; both
    are inputs of the model, and the parser is taken to succeed.  Paths are
    POSIX paths. *)

(** [s.startswith(prefix)] *)
Definition startswith (s prefix : string) : bool := String.prefix prefix s.

(** [os.path.join(a, b)] *)
Definition path_join (a b : string) : string :=
  if startswith b "/" then b
  else if String.eqb a "" || endswith a "/" then a +:+ b
  else a +:+ "/" +:+ b.

(** [s.rfind(c)] for a character [c], on the part of the string that starts
    at index [i]: the last index of [c], or -1. *)
Fixpoint rfind_from (c : ascii) (s : string) (i : Z) : Z :=
  match s with
  | EmptyString => -1
  | String a s' =>
      let r := rfind_from c s' (i + 1) in
      if 0 <=? r then r else if Ascii.eqb a c then i else -1
  end.

Definition rfind (c : ascii) (s : string) : Z := rfind_from c s 0.

(** [s[i:j]] for indices [0 <= i], [0 <= j]. *)
Definition slice (s : string) (i j : Z) : string :=
  String.substring (Z.to_nat i) (Z.to_nat j - Z.to_nat i) s.

(** The loop of [os.path.splitext] over the characters between the last
    separator and the last dot: whether one of them is not a dot. *)
Fixpoint has_non_dot (s : string) : bool :=
  match s with
  | EmptyString => false
  | String a s' => if Ascii.eqb a "." then has_non_dot s' else true
  end.

(** [os.path.splitext(p)] *)
Definition splitext (p : string) : string * string :=
  let sepIndex := rfind "/" p in
  let dotIndex := rfind "." p in
  if (sepIndex <? dotIndex) && has_non_dot (slice p (sepIndex + 1) dotIndex)
  then (slice p 0 dotIndex, slice p dotIndex (Z.of_nat (String.length p)))
  else (p, "").

Definition input_folder : string := "./svgs".
Definition output_folder : string := "./dxfs".

(** What a run leaves behind: the DXF files saved, in the order of the
    calls of [doc.saveas], each with the polylines of its model space, and
    the console. *)
Record outcome := Outcome {
  saved_files : list (string * list (list point));
  console : list line
}.

(** Lines 14-16: the test on the name and the two paths. *)
Definition is_svg (filename : string) : bool :=
  endswith (lower_string filename) ".svg".

Definition svg_path (filename : string) : string :=
  path_join input_folder filename.

Definition dxf_path (filename : string) : string :=
  path_join output_folder ((splitext filename).1 +:+ ".dxf").

(** Lines 15-83 for one name that passed the test. *)
Definition convert_file (svg2paths2 : string -> list Path * gmap string string)
    (filename : string) (st : outcome) : outcome * result unit :=
  let '(paths, svg_attributes) := svg2paths2 (svg_path filename) in
  match convert filename paths svg_attributes (World [] (console st)) with
  | (w, Ok _) =>
      (Outcome (saved_files st ++ [(dxf_path filename, msp w)]) (stdout w), Ok tt)
  | (w, Raise e) => (Outcome (saved_files st) (stdout w), Raise e)
  end.

(** Lines 13-83: the loop over the names of the input folder. *)
Fixpoint convert_all (svg2paths2 : string -> list Path * gmap string string)
    (listing : list string) (st : outcome) : outcome * result unit :=
  match listing with
  | [] => (st, Ok tt)
  | filename :: listing' =>
      if is_svg filename then
        match convert_file svg2paths2 filename st with
        | (st', Ok _) => convert_all svg2paths2 listing' st'
        | (st', Raise e) => (st', Raise e)
        end
      else convert_all svg2paths2 listing' st
  end.

(** ** Definitions used in the further properties *)

(** The polyline that a path contributes under a width and a viewbox: its
    deduplicated chain when sampling succeeds and the chain has two points
    or more. *)
Definition polyline_of (w : float) (vb : list string) (path : Path)
  : option (list point) :=
  match scale_factor w vb with
  | Ok scale =>
      match num_samples (path_length_mm path scale) with
      | Ok n =>
          match polyline_points path scale n with
          | Ok pts =>
              if (1 <? length (unique_points pts))%nat
              then Some (unique_points pts) else None
          | Raise _ => None
          end
      | Raise _ => None
      end
  | Raise _ => None
  end.

(** A console line that reports a polyline. *)
Definition reports (l : line) (polyline : list point) : Prop :=
  exists path_idx path_length_mm, l = PathLine path_idx path_length_mm (length polyline).

(** A folder with two drawings, a text file and a drawing whose width does
    not parse. *)
Definition example_parser (path : string) : list Path * gmap string string :=
  if String.eqb path "./svgs/bad.svg" then ([dot_path], {[ "width" := "wide" ]})
  else ([jump_path], ∅).

Definition example_listing : list string :=
  ["a.svg"; "notes.txt"; "B.SVG"; "bad.svg"; "c.svg"].

(** Whether a character occurs in a string. *)
Fixpoint contains (c : ascii) (s : string) : bool :=
  match s with
  | EmptyString => false
  | String a s' => Ascii.eqb a c || contains c s'
  end.

(** A world with lines printed before it. *)
Definition after (out : list line) (st : world) : world :=
  World (msp st) (out ++ stdout st).

(** The parse of a file and the document that its conversion alone saves. *)
Definition document_of (svg2paths2 : string -> list Path * gmap string string)
    (filename : string) : result (list (list point)) :=
  saved filename (svg2paths2 (svg_path filename)).1 (svg2paths2 (svg_path filename)).2.

(** The files of the output folder after the calls of [doc.saveas] recorded
    in [log], made in order on the folder [fs]: a call writes its document at
    its path and replaces the file that was there. *)
Definition files_after (log : list (string * list (list point)))
    (fs : gmap string (list (list point))) : gmap string (list (list point)) :=
  fold_left (fun fs entry => <[entry.1 := entry.2]> fs) log fs.

(** A folder with two names that differ in the case of the extension only:
    a long segment and a short one. *)
Definition shared_stem_parser (path : string) : list Path * gmap string string :=
  if String.eqb path "./svgs/a.SVG" then ([short_path], ∅) else ([segment_path], ∅).

Definition shared_stem_listing : list string := ["a.svg"; "notes.txt"; "a.SVG"].

(** ** The builtins on examples *)

Example float_of_str_examples :
  float_of_str "21.6" = Ok 21.6%float /\
  float_of_str " -40 " = Ok (-40)%float /\
  float_of_str "1_0.5e-1" = Ok 1.05%float /\
  float_of_str "INF" = Ok infinity /\
  float_of_str "1e400" = Ok infinity /\
  float_of_str "21.6mm" = Raise ValueError /\
  float_of_str "12cm" = Raise ValueError /\
  float_of_str "" = Raise ValueError.
Proof. repeat split; vm_compute; reflexivity. Qed.

Example mm_to_float_examples :
  mm_to_float "21.6mm" = Ok 21.6%float /\
  mm_to_float "37.8" = Ok 37.8%float /\
  mm_to_float "mm" = Raise ValueError.
Proof. repeat split; vm_compute; reflexivity. Qed.

Example split_examples :
  split "-40 -30 12 21" = default_viewbox /\ split "  a  b " = ["a"; "b"] /\
  split "" = [].
Proof. repeat split. Qed.

Example int_of_float_examples :
  int_of_float 2.7 = Ok 2 /\ int_of_float (-2.7) = Ok (-2) /\
  floor_of_float (-2.7) = Some (-3) /\
  int_of_float infinity = Raise OverflowError /\
  int_of_float nan = Raise ValueError.
Proof. repeat split. Qed.

Example int_truediv_examples :
  int_truediv 1 3 = Ok (1 / 3)%float /\ int_truediv 216 432 = Ok 0.5%float /\
  int_truediv 1 0 = Raise ZeroDivisionError.
Proof. repeat split; vm_compute; reflexivity. Qed.

Example unique_points_example :
  unique_points [(0, 0); (0.01, 0.01); (0.009, 0.009); (0.02, 0); (1, 1)]%float
  = [(0, 0); (0.02, 0); (1, 1)]%float.
Proof. reflexivity. Qed.

Example convert_examples :
  saved "a.svg" [dot_path; jump_path] ∅ = Ok [[(0, 0); (18, 0)]%float] /\
  saved "a.svg" [dot_path] {[ "viewBox" := "0 0 0 0" ]} = Raise ZeroDivisionError /\
  saved "a.svg" [dot_path] {[ "viewBox" := "0 0" ]} = Raise IndexError /\
  saved "a.svg" [] {[ "viewBox" := "0 0" ]} = Ok [] /\
  saved "a.svg" [dot_path] {[ "width" := "inf" ]} = Raise ValueError.
Proof. repeat split; vm_compute; reflexivity. Qed.

(** ** Binary64 rounding

    The float operations of the script are specified by [SpecFloat]: a product
    or quotient is computed exactly on mantissas and exponents and then
    rounded by [binary_round_aux].  This part describes that rounding by
    integer arithmetic, [rounded], and shows that it is monotone and when it
    stays finite. *)

(** [2 ^ e] is positive for [e >= 0]. *)
Ltac pow2_pos e := assert (0 < 2 ^ e) by (apply Z.pow_pos_nonneg; lia).

(** *** The number of binary digits *)

Lemma digits2_pos_size (p : positive) : digits2_pos p = Pos.size p.
Proof. induction p as [p IH|p IH|]; simpl; by rewrite ?IH. Qed.

Lemma Zdigits2_bounds (m : Z) :
  0 < m -> 2 ^ (Zdigits2 m - 1) <= m < 2 ^ Zdigits2 m.
Proof.
  destruct m as [|p|p]; try lia. intros _. simpl Zdigits2.
  rewrite digits2_pos_size.
  pose proof (Pos.size_gt p) as Hgt. pose proof (Pos.size_le p) as Hle.
  apply Pos2Z.pos_lt_pos in Hgt. apply Pos2Z.pos_le_pos in Hle.
  rewrite Pos2Z.inj_pow in Hgt, Hle. pose proof (Pos2Z.inj_xO p) as H2.
  replace (Z.pos (Pos.size p)) with (Z.succ (Z.pos (Pos.size p) - 1)) in Hle at 1 by lia.
  rewrite Z.pow_succ_r in Hle by lia. lia.
Qed.

Lemma Zdigits2_nonneg (m : Z) : 0 <= Zdigits2 m.
Proof. destruct m; simpl; lia. Qed.

Lemma Zdigits2_unique (m d : Z) :
  2 ^ (d - 1) <= m < 2 ^ d -> 0 < m -> Zdigits2 m = d.
Proof.
  intros [Hlo Hhi] Hm. pose proof (Zdigits2_bounds m Hm) as [Hlo' Hhi'].
  pose proof (Zdigits2_nonneg m).
  assert (0 <= d).
  { destruct (Z.le_gt_cases 0 d); [done|]. rewrite Z.pow_neg_r in Hhi; lia. }
  destruct (Z.lt_trichotomy (Zdigits2 m) d) as [Hlt|[Heq|Hgt]]; [|done|].
  - assert (2 ^ Zdigits2 m <= 2 ^ (d - 1)) by (apply Z.pow_le_mono_r; lia). lia.
  - assert (2 ^ d <= 2 ^ (Zdigits2 m - 1)) by (apply Z.pow_le_mono_r; lia). lia.
Qed.

Lemma Zdigits2_mono (a b : Z) : 0 < a <= b -> Zdigits2 a <= Zdigits2 b.
Proof.
  intros [Ha Hab]. pose proof (Zdigits2_bounds a Ha) as [Hlo _].
  pose proof (Zdigits2_bounds b ltac:(lia)) as [_ Hhi].
  destruct (Z.le_gt_cases (Zdigits2 a) (Zdigits2 b)); [done|].
  assert (2 ^ Zdigits2 b <= 2 ^ (Zdigits2 a - 1)) by (apply Z.pow_le_mono_r; lia). lia.
Qed.

Lemma Zdigits2_shift (m j : Z) : 0 < m -> 0 <= j -> Zdigits2 (m * 2 ^ j) = Zdigits2 m + j.
Proof.
  intros Hm Hj. pose proof (Zdigits2_bounds m Hm) as [Hlo Hhi].
  pose proof (Zdigits2_nonneg m).
  assert (0 < Zdigits2 m).
  { destruct m; simpl in *; lia. }
  pow2_pos j.
  apply Zdigits2_unique; [|nia].
  replace (Zdigits2 m + j - 1) with ((Zdigits2 m - 1) + j) by lia.
  rewrite !Z.pow_add_r by lia. nia.
Qed.

(** *** Shifting right with a round bit and a sticky bit *)

Lemma iter_pos_nat {A} (f : A -> A) (p : positive) (x : A) :
  SpecFloat.iter_pos f p x = Nat.iter (Pos.to_nat p) f x.
Proof.
  revert x; induction p as [p IH|p IH|]; intros x; cbn [SpecFloat.iter_pos].
  - rewrite !IH, Pos2Nat.inj_xI.
    replace (S (2 * Pos.to_nat p)) with (Pos.to_nat p + S (Pos.to_nat p))%nat by lia.
    by rewrite Nat.iter_add, Nat.iter_succ_r.
  - rewrite !IH, Pos2Nat.inj_xO.
    replace (2 * Pos.to_nat p)%nat with (Pos.to_nat p + Pos.to_nat p)%nat by lia.
    by rewrite Nat.iter_add.
  - done.
Qed.

Lemma shr_1_m (mrs : shr_record) :
  0 <= shr_m mrs -> shr_m (shr_1 mrs) = shr_m mrs / 2.
Proof.
  destruct mrs as [m r s]; simpl. intros Hm.
  destruct m as [|[p|p|]|p]; simpl; try lia; try done.
  - rewrite Pos2Z.inj_xI. apply Z.div_unique with 1; lia.
  - rewrite Pos2Z.inj_xO. apply Z.div_unique with 0; lia.
Qed.

Lemma shr_1_r (mrs : shr_record) :
  0 <= shr_m mrs -> shr_r (shr_1 mrs) = Z.odd (shr_m mrs).
Proof.
  destruct mrs as [m r s]; simpl. intros Hm.
  destruct m as [|[p|p|]|p]; simpl; try lia; done.
Qed.

Lemma shr_1_s (mrs : shr_record) :
  shr_s (shr_1 mrs) = shr_r mrs || shr_s mrs.
Proof. destruct mrs as [m r s]; simpl. destruct m as [|[p|p|]|[p|p|]]; done. Qed.

Lemma iter_shr_m (k : nat) (mrs : shr_record) :
  0 <= shr_m mrs ->
  shr_m (Nat.iter k shr_1 mrs) = shr_m mrs / 2 ^ Z.of_nat k.
Proof.
  intros Hm. induction k as [|k IH].
  - simpl. by rewrite Z.div_1_r.
  - rewrite Nat2Z.inj_succ, Z.pow_succ_r by lia. simpl.
    rewrite shr_1_m, IH.
    + rewrite Z.div_div by lia. f_equal. lia.
    + rewrite IH. apply Z.div_pos; lia.
Qed.

(** *** Rounding a quotient by a power of two to nearest even *)

Lemma rne_bounds (M k : Z) : M / 2 ^ k <= rne M k <= M / 2 ^ k + 1.
Proof.
  unfold rne. destruct (_ ?= _); [destruct (Z.even _)|..]; lia.
Qed.

Lemma rne_0 (M : Z) : rne M 0 = M.
Proof.
  unfold rne. rewrite Z.pow_0_r, Z.mod_1_r, Z.div_1_r. done.
Qed.

Lemma rne_mono (M1 M2 k : Z) : 0 <= k -> M1 <= M2 -> rne M1 k <= rne M2 k.
Proof.
  intros Hk HM. assert (HP : 0 < 2 ^ k) by (apply Z.pow_pos_nonneg; lia).
  pose proof (Z.div_le_mono M1 M2 (2 ^ k) HP HM) as Hq.
  destruct (Z.eq_dec (M1 / 2 ^ k) (M2 / 2 ^ k)) as [Heq|Hne].
  - pose proof (Z.div_mod M1 (2 ^ k) ltac:(lia)) as H1.
    pose proof (Z.div_mod M2 (2 ^ k) ltac:(lia)) as H2.
    assert (Hr : M1 mod 2 ^ k <= M2 mod 2 ^ k) by (rewrite Heq in H1; lia).
    unfold rne. rewrite Heq.
    destruct (Z.compare_spec (2 * (M1 mod 2 ^ k)) (2 ^ k));
      destruct (Z.compare_spec (2 * (M2 mod 2 ^ k)) (2 ^ k));
      destruct (Z.even (M2 / 2 ^ k)); lia.
  - pose proof (rne_bounds M1 k). pose proof (rne_bounds M2 k). lia.
Qed.

Lemma rne_scale (M k j : Z) :
  0 <= k -> 0 <= j -> rne (M * 2 ^ j) (k + j) = rne M k.
Proof.
  intros Hk Hj. unfold rne.
  pow2_pos k.
  pow2_pos j.
  rewrite Z.pow_add_r by lia.
  rewrite Z.div_mul_cancel_r by lia.
  rewrite Z.mul_mod_distr_r by lia.
  rewrite Z.mul_assoc, <- Zmult_compare_compat_r by lia. done.
Qed.

Lemma rne_exact (a k : Z) : 0 <= k -> rne (a * 2 ^ k) k = a.
Proof.
  intros Hk. pose proof (rne_scale a 0 k) as H. rewrite Z.add_0_l in H.
  rewrite H by lia. apply rne_0.
Qed.

(** After [k + 1] shifts of an exact record the mantissa is the quotient by
    [2 ^ (k + 1)], the round bit is the last bit shifted out and the sticky
    bit tells whether the bits before it were all zero. *)
Lemma iter_shr_exact (k : nat) (M : Z) :
  0 <= M ->
  let mrs := Nat.iter (S k) shr_1 (Build_shr_record M false false) in
  shr_m mrs = M / 2 ^ Z.of_nat (S k) /\
  shr_r mrs = Z.odd (M / 2 ^ Z.of_nat k) /\
  shr_s mrs = negb (M mod 2 ^ Z.of_nat k =? 0).
Proof.
  intros HM mrs. split; [apply (iter_shr_m (S k) (Build_shr_record M false false) HM)|].
  subst mrs. induction k as [|k [IHr IHs]].
  - change (Nat.iter 1 shr_1 ?x) with (shr_1 x).
    rewrite shr_1_r, shr_1_s by done. simpl.
    rewrite Z.div_1_r, Z.mod_1_r. done.
  - set (prev := Nat.iter (S k) shr_1 (Build_shr_record M false false)) in *.
    change (Nat.iter (S (S k)) shr_1 (Build_shr_record M false false)) with (shr_1 prev).
    assert (Hm : shr_m prev = M / 2 ^ Z.of_nat (S k))
      by apply (iter_shr_m (S k) (Build_shr_record M false false) HM).
    pow2_pos (Z.of_nat k).
    assert (0 <= shr_m prev) by (rewrite Hm; apply Z.div_pos; lia).
    split.
    + rewrite shr_1_r, Hm by done. done.
    + rewrite shr_1_s, IHr, IHs.
      rewrite (Nat2Z.inj_succ k), Z.pow_succ_r by lia.
      rewrite (Z.mul_comm 2), Z.rem_mul_r by lia.
      rewrite Zmod_odd.
      pose proof (Z.mod_pos_bound M (2 ^ Z.of_nat k) ltac:(lia)).
      destruct (Z.odd _); destruct (Z.eqb_spec (M mod 2 ^ Z.of_nat k) 0);
        match goal with
        | |- _ = negb (?a =? 0) => destruct (Z.eqb_spec a 0)
        end; simpl; try done; lia.
Qed.

Lemma round_shr_rne (k : positive) (M : Z) :
  0 <= M ->
  let mrs := SpecFloat.iter_pos shr_1 k (Build_shr_record M false false) in
  round_nearest_even (shr_m mrs) (loc_of_shr_record mrs) = rne M (Zpos k).
Proof.
  intros HM mrs. subst mrs. rewrite iter_pos_nat.
  destruct (Pos2Nat.is_succ k) as [n Hn]. rewrite Hn.
  destruct (iter_shr_exact n M HM) as (Hm & Hr & Hs).
  set (mrs := Nat.iter (S n) shr_1 _) in *.
  assert (Hk : Z.pos k = Z.succ (Z.of_nat n)) by lia.
  destruct mrs as [m r s]; simpl in *. subst m r s.
  unfold rne. rewrite Hk, <- Nat2Z.inj_succ.
  set (q := M / 2 ^ Z.of_nat (S n)).
  assert (HP : 0 < 2 ^ Z.of_nat n) by (apply Z.pow_pos_nonneg; lia).
  rewrite (Nat2Z.inj_succ n), Z.pow_succ_r by lia.
  rewrite (Z.mul_comm 2 (2 ^ _)), Z.rem_mul_r by lia.
  rewrite Zmod_odd.
  pose proof (Z.mod_pos_bound M (2 ^ Z.of_nat n) ltac:(lia)).
  destruct (Z.odd _); destruct (Z.eqb_spec (M mod 2 ^ Z.of_nat n) 0); simpl;
    match goal with |- context [?a ?= ?b] => destruct (Z.compare_spec a b) end;
    try lia; done.
Qed.


(** *** The two phases of [binary_round_aux] *)

Lemma fexp_eq (x : Z) : fexp prec emax x = Z.max (x - 53) (-1074).
Proof. reflexivity. Qed.

Lemma shr_fexp_exact (M E : Z) :
  0 <= M ->
  exists mrs,
    shr_fexp prec emax M E loc_Exact = (mrs, E + shift_of M E) /\
    round_nearest_even (shr_m mrs) (loc_of_shr_record mrs) = rne M (shift_of M E).
Proof.
  intros HM. unfold shr_fexp, shr, shift_of.
  destruct (fexp prec emax (Zdigits2 M + E) - E) as [|p|p] eqn:Hn.
  - eexists; split; [by rewrite Z.add_0_r|]. simpl. by rewrite rne_0.
  - eexists; split; [by rewrite Z.max_r by lia|].
    rewrite Z.max_r by lia. by apply round_shr_rne.
  - eexists; split; [by rewrite Z.max_l, Z.add_0_r by lia|].
    rewrite Z.max_l by lia. simpl. by rewrite rne_0.
Qed.

Lemma first_phase_bounds (M E : Z) :
  0 < M ->
  0 <= rne M (shift_of M E) <= 2 ^ 53 /\ -1074 <= E + shift_of M E.
Proof.
  intros HM. pose proof (Zdigits2_bounds M HM) as [_ Hhi].
  pose proof (Zdigits2_nonneg M) as Hd.
  assert (Hn : 0 <= shift_of M E /\ Zdigits2 M - 53 <= shift_of M E
               /\ -1074 <= E + shift_of M E).
  { unfold shift_of. rewrite fexp_eq. lia. }
  destruct Hn as (Hn0 & Hn1 & Hn2). split; [|done].
  set (n := shift_of M E) in *.
  assert (HP : 0 < 2 ^ n) by (apply Z.pow_pos_nonneg; lia).
  pose proof (rne_bounds M n) as [Hlo Hup].
  assert (0 <= M / 2 ^ n) by (apply Z.div_pos; lia).
  assert (M / 2 ^ n < 2 ^ 53).
  { apply Z.div_lt_upper_bound; [done|].
    rewrite <- Z.pow_add_r by lia.
    assert (2 ^ Zdigits2 M <= 2 ^ (n + 53)) by (apply Z.pow_le_mono_r; lia). lia. }
  lia.
Qed.

(** The second shift only renormalises a mantissa that rounded up to
    [2 ^ 53]; it loses no bit. *)
Lemma second_phase (m e : Z) :
  0 <= m <= 2 ^ 53 -> -1074 <= e ->
  exists mrs e',
    shr_fexp prec emax m e loc_Exact = (mrs, e') /\
    e <= e' /\ 0 <= shr_m mrs /\ shr_m mrs * 2 ^ (e' - e) = m.
Proof.
  intros [Hm0 Hm] He. unfold shr_fexp, shr. rewrite fexp_eq.
  assert (Hd : Zdigits2 m <= 54).
  { destruct (Z.eq_dec m 0) as [->|]; [simpl; lia|].
    pose proof (Zdigits2_bounds m ltac:(lia)) as [Hlo _].
    destruct (Z.le_gt_cases (Zdigits2 m) 54); [done|].
    assert (2 ^ 54 <= 2 ^ (Zdigits2 m - 1)) by (apply Z.pow_le_mono_r; lia). lia. }
  destruct (Z.max (Zdigits2 m + e - 53) (-1074) - e) as [|p|p] eqn:Hn.
  - exists (Build_shr_record m false false), e. split; [reflexivity|]. simpl.
    rewrite Z.sub_diag. simpl. lia.
  - assert (Hd54 : Zdigits2 m = 54) by lia.
    assert (p = 1%positive) as -> by lia.
    assert (m = 2 ^ 53) as ->.
    { destruct (Z.eq_dec m 0) as [->|]; [simpl in Hd54; lia|].
      pose proof (Zdigits2_bounds m ltac:(lia)) as [Hlo _].
      rewrite Hd54 in Hlo. simpl in Hlo. lia. }
    eexists _, _. split; [reflexivity|]. simpl. split; [lia|].
    split; [lia|]. replace (e + 1 - e) with 1 by lia. reflexivity.
  - exists (Build_shr_record m false false), e. split; [reflexivity|]. simpl.
    rewrite Z.sub_diag. simpl. lia.
Qed.

(** The value that [binary_round_aux] returns for an exact input. *)
Lemma binary_round_aux_value (s : bool) (M E : Z) :
  0 < M ->
  match binary_round_aux prec emax s M E loc_Exact with
  | S754_zero s' => s' = s /\ rounded M E = 0
  | S754_finite s' m e => s' = s /\ E <= e /\ Zpos m * 2 ^ (e - E) = rounded M E
  | S754_infinity s' => s' = s
  | S754_nan => False
  end.
Proof.
  intros HM. unfold binary_round_aux, rounded.
  destruct (shr_fexp_exact M E ltac:(lia)) as (mrs & -> & ->).
  destruct (first_phase_bounds M E HM) as [Hb He].
  set (n := shift_of M E) in *.
  assert (Hn : 0 <= n) by (unfold n, shift_of; lia).
  destruct (second_phase (rne M n) (E + n) Hb He) as (mrs' & e' & -> & He' & Hm0 & Hv).
  destruct (shr_m mrs') as [|m|m] eqn:Hm; [| |lia].
  - split; [done|]. rewrite <- Hv. lia.
  - destruct (e' <=? emax - prec); [|done].
    split; [done|]. split; [lia|].
    rewrite <- Hv. replace (e' - E) with ((e' - (E + n)) + n) by lia.
    rewrite Z.pow_add_r by lia. lia.
Qed.

(** *** Monotonicity of the rounding *)

Lemma rounded_nonneg (M E : Z) : 0 < M -> 0 <= rounded M E.
Proof.
  intros HM. unfold rounded.
  destruct (first_phase_bounds M E HM) as [[H0 _] _].
  assert (0 <= shift_of M E) by (unfold shift_of; lia).
  pow2_pos (shift_of M E). lia.
Qed.

Lemma rounded_pow2 (d n : Z) : 0 <= n <= d -> rne (2 ^ d) n * 2 ^ n = 2 ^ d.
Proof.
  intros Hn. replace d with ((d - n) + n) at 1 by lia.
  rewrite Z.pow_add_r, rne_exact by lia.
  rewrite <- Z.pow_add_r by lia. f_equal. lia.
Qed.

Lemma rounded_mono (M1 M2 E : Z) :
  0 < M1 <= M2 -> rounded M1 E <= rounded M2 E.
Proof.
  intros [HM1 HM]. unfold rounded.
  pose proof (Zdigits2_mono M1 M2 ltac:(lia)) as Hd.
  pose proof (Zdigits2_bounds M1 HM1) as [_ Hhi1].
  pose proof (Zdigits2_bounds M2 ltac:(lia)) as [Hlo2 _].
  assert (H1 : Zdigits2 M1 - 53 <= shift_of M1 E /\ 0 <= shift_of M1 E)
    by (unfold shift_of; rewrite fexp_eq; lia).
  assert (Hn : shift_of M1 E <= shift_of M2 E)
    by (unfold shift_of; rewrite !fexp_eq; lia).
  destruct (Z.eq_dec (shift_of M1 E) (shift_of M2 E)) as [Heq|Hne].
  - rewrite <- Heq.
    pow2_pos (shift_of M1 E).
    pose proof (rne_mono M1 M2 (shift_of M1 E) ltac:(lia) HM). nia.
  - assert (H2 : shift_of M2 E = Zdigits2 M2 - 53 /\ Zdigits2 M1 < Zdigits2 M2).
    { revert H1 Hn Hne. unfold shift_of. rewrite !fexp_eq. lia. }
    destruct H2 as [H2 Hdlt].
    set (n1 := shift_of M1 E) in *. set (n2 := shift_of M2 E) in *.
    set (d2 := Zdigits2 M2) in *.
    assert (HM1' : M1 <= 2 ^ (d2 - 1)).
    { assert (2 ^ Zdigits2 M1 <= 2 ^ (d2 - 1)) by (apply Z.pow_le_mono_r; lia). lia. }
    pow2_pos n1.
    pow2_pos n2.
    pose proof (rne_mono M1 (2 ^ (d2 - 1)) n1 ltac:(lia) HM1') as Hup.
    pose proof (rne_mono (2 ^ (d2 - 1)) M2 n2 ltac:(lia) Hlo2) as Hlow.
    pose proof (rounded_pow2 (d2 - 1) n1 ltac:(lia)).
    pose proof (rounded_pow2 (d2 - 1) n2 ltac:(lia)).
    nia.
Qed.

Lemma rounded_scale (M E j : Z) :
  0 < M -> 0 <= j -> rounded (M * 2 ^ j) (E - j) = rounded M E * 2 ^ j.
Proof.
  intros HM Hj. unfold rounded.
  assert (Ht : fexp prec emax (Zdigits2 (M * 2 ^ j) + (E - j))
               = fexp prec emax (Zdigits2 M + E)).
  { rewrite Zdigits2_shift by lia. f_equal. lia. }
  unfold shift_of. rewrite Ht.
  set (t := fexp prec emax (Zdigits2 M + E)).
  destruct (Z.le_gt_cases 0 (t - E)) as [Hpos|Hneg].
  - rewrite !Z.max_r by lia.
    replace (t - (E - j)) with ((t - E) + j) by lia.
    rewrite rne_scale, Z.pow_add_r by lia. lia.
  - rewrite (Z.max_l 0 (t - E)) by lia. rewrite rne_0, Z.pow_0_r, Z.mul_1_r.
    set (n := Z.max 0 (t - (E - j))).
    assert (0 <= n <= j) by lia.
    replace (M * 2 ^ j) with ((M * 2 ^ (j - n)) * 2 ^ n).
    + by rewrite rne_exact by lia.
    + rewrite <- Z.mul_assoc, <- Z.pow_add_r by lia. do 2 f_equal. lia.
Qed.

(** *** Products of floats and their integer parts *)

Lemma shiftl_mono (a b n : Z) : 0 <= a <= b -> Z.shiftl a n <= Z.shiftl b n.
Proof.
  intros Hab. destruct (Z.le_gt_cases 0 n).
  - rewrite !Z.shiftl_mul_pow2 by lia.
    pow2_pos n. nia.
  - rewrite <- (Z.opp_involutive n), !Z.shiftl_opp_r, !Z.shiftr_div_pow2 by lia.
    apply Z.div_le_mono; [apply Z.pow_pos_nonneg|]; lia.
Qed.

Lemma shiftl_nonneg (a n : Z) : 0 <= a -> 0 <= Z.shiftl a n.
Proof. intros Ha. by apply Z.shiftl_nonneg. Qed.

Lemma shiftl_rescale (a e E : Z) :
  E <= e -> Z.shiftl a e = Z.shiftl (a * 2 ^ (e - E)) E.
Proof.
  intros He. rewrite <- Z.shiftl_mul_pow2, Z.shiftl_shiftl by lia.
  f_equal. lia.
Qed.

(** A valid finite float has at most 53 mantissa bits, and exactly 53 above
    the smallest exponent. *)
Lemma valid_finite_bounds (s : bool) (m : positive) (e : Z) :
  valid_binary (S754_finite s m e) = true ->
  Zpos m < 2 ^ 53 /\ -1074 <= e /\ (-1074 < e -> 2 ^ 52 <= Zpos m).
Proof.
  unfold SpecFloat.valid_binary, bounded, canonical_mantissa.
  rewrite fexp_eq. intros [Hc _]%andb_true_iff. apply Z.eqb_eq in Hc.
  pose proof (Zdigits2_bounds (Zpos m) ltac:(lia)) as [Hlo Hhi].
  change (Zdigits2 (Z.pos m)) with (Z.pos (digits2_pos m)) in *.
  split; [|split; [lia|]].
  - assert (2 ^ Z.pos (digits2_pos m) <= 2 ^ 53) by (apply Z.pow_le_mono_r; lia). lia.
  - intros He. assert (Z.pos (digits2_pos m) = 53) as Hd by lia.
    by rewrite Hd in Hlo.
Qed.

(** The integer part of [x * c], for a finite [x >= 0] and a finite [c > 0],
    when it exists: the rounded product, shifted to the units. *)
Lemma int_of_mul_pos (m mc : positive) (e ec : Z) (k : Z) :
  int_of_spec_float (SF64mul (S754_finite false m e) (S754_finite false mc ec))
  = Ok k ->
  k = Z.shiftl (rounded (Zpos m * Zpos mc) (e + ec)) (e + ec).
Proof.
  unfold int_of_spec_float, SF64mul, SFmul. simpl xorb.
  pose proof (binary_round_aux_value false (Zpos (m * mc)) (e + ec) ltac:(lia)) as Hv.
  rewrite Pos2Z.inj_mul in Hv.
  destruct (binary_round_aux _ _ _ _ _ _) as [s'|s'| |s' m' e']; try done.
  - destruct Hv as [_ ->]. intros [= <-]. by rewrite Z.shiftl_0_l.
  - destruct Hv as (-> & He & <-). intros [= <-]. simpl.
    by apply shiftl_rescale.
Qed.

Lemma int_of_mul_neg (m mc : positive) (e ec : Z) (k : Z) :
  int_of_spec_float (SF64mul (S754_finite true m e) (S754_finite false mc ec))
  = Ok k ->
  k <= 0.
Proof.
  unfold int_of_spec_float, SF64mul, SFmul. simpl xorb.
  pose proof (binary_round_aux_value true (Zpos (m * mc)) (e + ec) ltac:(lia)) as Hv.
  destruct (binary_round_aux _ _ _ _ _ _) as [s'|s'| |s' m' e']; try done.
  - intros [= <-]. lia.
  - destruct Hv as (-> & _). intros [= <-]. simpl.
    pose proof (shiftl_nonneg (Zpos m') e' ltac:(lia)). lia.
Qed.

Lemma rounded_product_mono (m1 m2 mc : positive) (e1 e2 ec : Z) :
  valid_binary (S754_finite false m1 e1) = true ->
  valid_binary (S754_finite false m2 e2) = true ->
  SFltb (S754_finite false m1 e1) (S754_finite false m2 e2) = true ->
  Z.shiftl (rounded (Zpos m1 * Zpos mc) (e1 + ec)) (e1 + ec)
  <= Z.shiftl (rounded (Zpos m2 * Zpos mc) (e2 + ec)) (e2 + ec).
Proof.
  intros (Hm1 & He1 & _)%valid_finite_bounds (Hm2 & He2 & Hn2)%valid_finite_bounds.
  unfold SFltb, SFcompare. intros Hlt.
  destruct (Z.compare_spec e1 e2) as [->|He|He]; [| |done].
  - apply shiftl_mono. split; [apply rounded_nonneg; lia|].
    apply rounded_mono.
    assert ((m1 < m2)%positive).
    { rewrite Pos.compare_cont_spec in Hlt. unfold Pos.lt.
      by destruct (m1 ?= m2)%positive. }
    nia.
  - set (j := e2 - e1).
    assert (Hj : 0 < 2 ^ j) by (apply Z.pow_pos_nonneg; lia).
    rewrite (shiftl_rescale (rounded (Zpos m2 * Zpos mc) (e2 + ec)) (e2 + ec) (e1 + ec))
      by lia.
    replace (e2 + ec - (e1 + ec)) with j by lia.
    rewrite <- rounded_scale by lia.
    replace (e2 + ec - j) with (e1 + ec) by lia.
    apply shiftl_mono. split; [apply rounded_nonneg; lia|].
    apply rounded_mono.
    assert (2 ^ 1 <= 2 ^ j) by (apply Z.pow_le_mono_r; lia).
    specialize (Hn2 ltac:(lia)).
    change (2 ^ 1) with 2 in *. change (2 ^ 53) with (2 * 2 ^ 52) in *.
    assert (Z.pos m1 <= Z.pos m2 * 2 ^ j) by nia.
    split; [lia|]. rewrite <- Z.mul_assoc, (Z.mul_comm (Z.pos mc)), Z.mul_assoc.
    apply Z.mul_le_mono_nonneg_r; lia.
Qed.

(** Multiplying by a finite positive constant and truncating is monotone,
    up to the sign: the integer part of [x * c] is at most 0 or at most the
    integer part of [y * c] when [x < y]. *)
Lemma int_of_mul_mono (x y c : float) (mc : positive) (ec : Z) (k1 k2 : Z) :
  Prim2SF c = S754_finite false mc ec ->
  (x <? y)%float = true ->
  int_of_float (x * c) = Ok k1 ->
  int_of_float (y * c) = Ok k2 ->
  k1 <= Z.max 0 k2.
Proof.
  intros Hc. unfold int_of_float. rewrite ltb_spec, !mul_spec, Hc.
  pose proof (Prim2SF_valid x) as Vx. pose proof (Prim2SF_valid y) as Vy.
  destruct (Prim2SF x) as [sx|sx| |sx mx ex]; try done.
  - intros _ [= <-] _. lia.
  - destruct sx.
    { intros _ H1%int_of_mul_neg _. lia. }
    destruct (Prim2SF y) as [sy|sy| |sy my ey]; [done| |done|].
    + intros _ _ H2. by destruct sy.
    + destruct sy; [done|]. intros Hlt H1%int_of_mul_pos H2%int_of_mul_pos.
      subst k1 k2.
      pose proof (rounded_product_mono mx my mc ex ey ec Vx Vy Hlt). lia.
Qed.

(** *** When the rounding stays finite *)

Lemma second_phase_exponent (m e : Z) :
  0 <= m <= 2 ^ 53 -> -1074 <= e ->
  exists mrs,
    shr_fexp prec emax m e loc_Exact = (mrs, e + (if m =? 2 ^ 53 then 1 else 0)) /\
    (0 < m -> 0 < shr_m mrs).
Proof.
  intros [Hm0 Hm] He. unfold shr_fexp, shr. rewrite fexp_eq.
  assert (Hd : m < 2 ^ 53 -> Zdigits2 m <= 53).
  { intros Hlt. destruct (Z.eq_dec m 0) as [->|]; [simpl; lia|].
    pose proof (Zdigits2_bounds m ltac:(lia)) as [Hlo _].
    destruct (Z.le_gt_cases (Zdigits2 m) 53); [done|].
    assert (2 ^ 53 <= 2 ^ (Zdigits2 m - 1)) by (apply Z.pow_le_mono_r; lia). lia. }
  destruct (Z.eqb_spec m (2 ^ 53)) as [->|Hne].
  - change (Zdigits2 (2 ^ 53)) with 54.
    replace (Z.max (54 + e - 53) (-1074) - e) with 1 by lia.
    eexists. split; [reflexivity|]. done.
  - specialize (Hd ltac:(lia)).
    destruct (Z.max (Zdigits2 m + e - 53) (-1074) - e) as [|p|p] eqn:Hn; [|lia|].
    + eexists. split; [by rewrite Z.add_0_r|]. done.
    + eexists. split; [by rewrite Z.add_0_r|]. done.
Qed.

Lemma rne_zero_subnormal (M E : Z) :
  0 < M -> rne M (shift_of M E) = 0 -> E + shift_of M E = -1074.
Proof.
  intros HM H0. pose proof (rne_bounds M (shift_of M E)) as [Hlo _].
  pose proof (Zdigits2_bounds M HM) as [Hd _].
  assert (Hn : 0 <= shift_of M E) by (unfold shift_of; lia).
  pow2_pos (shift_of M E).
  assert (0 <= M / 2 ^ shift_of M E) by (apply Z.div_pos; lia).
  assert (M < 2 ^ shift_of M E).
  { destruct (Z.lt_ge_cases M (2 ^ shift_of M E)); [done|].
    assert (1 <= M / 2 ^ shift_of M E); [|lia].
    apply Z.div_le_lower_bound; lia. }
  assert (Hlt : Zdigits2 M - 1 < shift_of M E).
  { destruct (Z.lt_ge_cases (Zdigits2 M - 1) (shift_of M E)); [done|].
    assert (2 ^ shift_of M E <= 2 ^ (Zdigits2 M - 1)) by (apply Z.pow_le_mono_r; lia).
    lia. }
  assert (0 < Zdigits2 M) by (destruct M; simpl; lia).
  revert Hlt. unfold shift_of. rewrite fexp_eq. lia.
Qed.

Lemma binary_round_aux_in_range (s : bool) (M E : Z) :
  0 < M ->
  in_range M E = true <->
  forall s', binary_round_aux prec emax s M E loc_Exact <> S754_infinity s'.
Proof.
  intros HM. unfold in_range, binary_round_aux.
  destruct (shr_fexp_exact M E ltac:(lia)) as (mrs & -> & ->).
  destruct (first_phase_bounds M E HM) as [Hb He].
  set (n := shift_of M E) in *.
  destruct (second_phase_exponent (rne M n) (E + n) Hb He) as (mrs' & -> & Hpos).
  set (c := if rne M n =? 2 ^ 53 then 1 else 0) in *.
  change (emax - prec) with 971.
  destruct (Z.leb_spec (E + n + c) 971) as [Hle|Hgt].
  - split; [|done]. intros _ s'. by destruct (shr_m mrs').
  - split; [done|]. intros Hfin. exfalso.
    assert (0 < rne M n).
    { destruct (Z.eq_dec (rne M n) 0) as [H0|]; [|lia].
      pose proof (rne_zero_subnormal M E HM H0) as Hsub. subst c. fold n in Hsub.
      rewrite H0 in Hgt. simpl in Hgt. lia. }
    specialize (Hpos ltac:(lia)).
    destruct (shr_m mrs') as [|m|m]; [lia| |lia].
    by apply (Hfin s).
Qed.

Lemma shift_of_mono (M1 M2 E : Z) :
  0 < M1 <= M2 -> shift_of M1 E <= shift_of M2 E.
Proof.
  intros HM. pose proof (Zdigits2_mono M1 M2 HM).
  unfold shift_of. rewrite !fexp_eq. lia.
Qed.

Lemma in_range_mono (M1 M2 E : Z) :
  0 < M1 <= M2 -> in_range M2 E = true -> in_range M1 E = true.
Proof.
  intros HM. unfold in_range. intros H2%Z.leb_le. apply Z.leb_le.
  pose proof (shift_of_mono M1 M2 E HM) as Hn.
  destruct (first_phase_bounds M2 E ltac:(lia)) as [[_ Hb2] _].
  assert (H0 : 0 <= shift_of M1 E) by (unfold shift_of; lia).
  destruct (Z.eq_dec (shift_of M1 E) (shift_of M2 E)) as [Heq|Hne].
  - rewrite <- Heq in *.
    pose proof (rne_mono M1 M2 (shift_of M1 E) H0 ltac:(lia)) as Hr.
    destruct (Z.eqb_spec (rne M1 (shift_of M1 E)) (2 ^ 53));
      destruct (Z.eqb_spec (rne M2 (shift_of M1 E)) (2 ^ 53)); lia.
  - destruct (rne M1 (shift_of M1 E) =? 2 ^ 53);
      destruct (rne M2 (shift_of M2 E) =? 2 ^ 53); lia.
Qed.

Lemma in_range_scale (M E j : Z) :
  0 < M -> 0 <= j -> in_range M (E + j) = true -> in_range (M * 2 ^ j) E = true.
Proof.
  intros HM Hj. unfold in_range.
  assert (Ht : fexp prec emax (Zdigits2 (M * 2 ^ j) + E)
               = fexp prec emax (Zdigits2 M + (E + j))).
  { rewrite Zdigits2_shift by lia. f_equal. lia. }
  unfold shift_of. rewrite Ht.
  set (t := fexp prec emax (Zdigits2 M + (E + j))).
  intros H2%Z.leb_le. apply Z.leb_le.
  destruct (Z.le_gt_cases 0 (t - (E + j))) as [Hpos|Hneg].
  - rewrite Z.max_r in H2 by lia. rewrite Z.max_r by lia.
    replace (t - E) with ((t - (E + j)) + j) by lia.
    rewrite rne_scale by lia. lia.
  - rewrite (Z.max_l 0 (t - (E + j))) in H2 by lia. rewrite rne_0 in H2.
    set (n := Z.max 0 (t - E)). assert (0 <= n <= j) by lia.
    assert (Hr : rne (M * 2 ^ j) n = M * 2 ^ (j - n)).
    { replace (M * 2 ^ j) with ((M * 2 ^ (j - n)) * 2 ^ n).
      - by rewrite rne_exact by lia.
      - rewrite <- Z.mul_assoc, <- Z.pow_add_r by lia. do 2 f_equal. lia. }
    rewrite Hr. destruct (Z.eq_dec n j) as [->|].
    + rewrite Z.sub_diag, Z.pow_0_r, Z.mul_1_r. lia.
    + destruct (_ =? _) in H2; destruct (_ =? _); lia.
Qed.

Lemma product_in_range_mono (m1 m2 mc : positive) (e1 e2 ec : Z) :
  valid_binary (S754_finite false m1 e1) = true ->
  valid_binary (S754_finite false m2 e2) = true ->
  SFltb (S754_finite false m1 e1) (S754_finite false m2 e2) = true ->
  in_range (Zpos m2 * Zpos mc) (e2 + ec) = true ->
  in_range (Zpos m1 * Zpos mc) (e1 + ec) = true.
Proof.
  intros (Hm1 & He1 & _)%valid_finite_bounds (Hm2 & He2 & Hn2)%valid_finite_bounds.
  unfold SFltb, SFcompare. intros Hlt.
  destruct (Z.compare_spec e1 e2) as [->|He|He]; [| |done].
  - apply in_range_mono.
    assert ((m1 < m2)%positive).
    { rewrite Pos.compare_cont_spec in Hlt. unfold Pos.lt.
      by destruct (m1 ?= m2)%positive. }
    nia.
  - set (j := e2 - e1). intros Hr.
    assert (Hj : 0 < 2 ^ j) by (apply Z.pow_pos_nonneg; lia).
    replace (e2 + ec) with ((e1 + ec) + j) in Hr by lia.
    apply in_range_scale in Hr; [|lia..].
    revert Hr. apply in_range_mono.
    assert (2 ^ 1 <= 2 ^ j) by (apply Z.pow_le_mono_r; lia).
    specialize (Hn2 ltac:(lia)).
    change (2 ^ 1) with 2 in *. change (2 ^ 53) with (2 * 2 ^ 52) in *.
    assert (Z.pos m1 <= Z.pos m2 * 2 ^ j) by nia.
    split; [lia|]. rewrite <- Z.mul_assoc, (Z.mul_comm (Z.pos mc)), Z.mul_assoc.
    apply Z.mul_le_mono_nonneg_r; lia.
Qed.

(** The integer part of [x * c] exists for [0 <= x < y] when that of [y * c]
    does. *)
Lemma int_of_mul_defined (x y c : float) (mc : positive) (ec : Z) (k2 : Z) :
  Prim2SF c = S754_finite false mc ec ->
  (0 <=? x)%float = true ->
  (x <? y)%float = true ->
  int_of_float (y * c) = Ok k2 ->
  exists k1, int_of_float (x * c) = Ok k1.
Proof.
  intros Hc. unfold int_of_float. rewrite leb_spec, ltb_spec, !mul_spec, Hc.
  change (Prim2SF 0) with (S754_zero false).
  pose proof (Prim2SF_valid x) as Vx. pose proof (Prim2SF_valid y) as Vy.
  destruct (Prim2SF x) as [sx|sx| |sx mx ex].
  { intros. by eexists. }
  { destruct sx; [done|]. intros _ Hlt. by destruct (Prim2SF y) as [|[]| |]. }
  { done. }
  destruct sx; [done|]. intros _.
  destruct (Prim2SF y) as [sy|sy| |sy my ey]; [done| |done|].
  { intros _ H2. by destruct sy. }
  destruct sy; [done|]. intros Hlt H2.
  pose proof (binary_round_aux_in_range false (Zpos (mx * mc)) (ex + ec) ltac:(lia))
    as Hx.
  pose proof (binary_round_aux_in_range false (Zpos (my * mc)) (ey + ec) ltac:(lia))
    as Hy.
  pose proof (product_in_range_mono mx my mc ex ey ec Vx Vy Hlt) as Hmono.
  pose proof (binary_round_aux_value false (Zpos (mx * mc)) (ex + ec) ltac:(lia)) as Hv.
  unfold SF64mul, SFmul in *. simpl xorb in *.
  rewrite !Pos2Z.inj_mul in *.
  destruct (binary_round_aux prec emax false (Z.pos mx * Z.pos mc) (ex + ec) loc_Exact)
    as [s|s| |s m e] eqn:Hx'; [by eexists| |done|by eexists].
  exfalso. apply (proj1 Hx) with s; [|done].
  apply Hmono, Hy. intros s' Hinf. by rewrite Hinf in H2.
Qed.

(** *** Quotients of integers *)

Lemma Zdigits2_le_pow (m k : Z) : 0 <= m <= 2 ^ k -> 0 <= k -> Zdigits2 m <= k + 1.
Proof.
  intros [Hm0 Hm] Hk. destruct (Z.eq_dec m 0) as [->|]; [simpl; lia|].
  pose proof (Zdigits2_bounds m ltac:(lia)) as [Hlo _].
  destruct (Z.le_gt_cases (Zdigits2 m) (k + 1)); [done|].
  assert (2 ^ (k + 1) <= 2 ^ (Zdigits2 m - 1)) by (apply Z.pow_le_mono_r; lia).
  rewrite Z.pow_add_r in * by lia. lia.
Qed.

Lemma shr_m_of_loc (m : Z) (l : location) : shr_m (shr_record_of_loc m l) = m.
Proof. by destruct l as [|[]]. Qed.

Lemma round_nearest_even_bounds (m : Z) (l : location) :
  m <= round_nearest_even m l <= m + 1.
Proof. destruct l as [|[]]; simpl; [| destruct (Z.even m)|..]; lia. Qed.

(** Rounding stays finite when the value is below [2^1023]. *)
Lemma binary_round_aux_finite (s : bool) (mx ex : Z) (lx : location) :
  0 <= mx -> ex <= 971 -> Zdigits2 mx + ex <= 1023 ->
  forall s', binary_round_aux prec emax s mx ex lx <> S754_infinity s'.
Proof.
  intros Hm He Hd s'. unfold binary_round_aux.
  pose proof (Zdigits2_nonneg mx) as Hd0.
  assert (H1 : exists mrs e1,
             shr_fexp prec emax mx ex lx = (mrs, e1) /\ e1 <= 971 /\
             0 <= shr_m mrs /\ Zdigits2 (shr_m mrs + 1) + e1 <= 1024 /\
             Zdigits2 (shr_m mrs) + e1 <= 1024).
  { unfold shr_fexp, shr. rewrite fexp_eq.
    destruct (Z.max (Zdigits2 mx + ex - 53) (-1074) - ex) as [|p|p] eqn:Hn.
    - eexists _, _. split; [done|]. rewrite shr_m_of_loc.
      assert (Zdigits2 mx <= 53) by lia.
      pose proof (Zdigits2_le_pow (mx + 1) (Zdigits2 mx)) as Hle.
      destruct (Z.eq_dec mx 0) as [->|]; [simpl; lia|].
      pose proof (Zdigits2_bounds mx ltac:(lia)). lia.
    - eexists _, _. split; [done|]. rewrite iter_pos_nat, iter_shr_m, shr_m_of_loc
        by (rewrite shr_m_of_loc; lia).
      rewrite positive_nat_Z.
      assert (HP : 0 < 2 ^ Z.pos p) by (apply Z.pow_pos_nonneg; lia).
      assert (0 <= mx / 2 ^ Z.pos p) by (apply Z.div_pos; lia).
      set (k := Z.max (Zdigits2 mx - Z.pos p) 0).
      assert (mx / 2 ^ Z.pos p + 1 <= 2 ^ k).
      { destruct (Z.eq_dec mx 0) as [->|]; [rewrite Z.div_0_l by lia;
          assert (2 ^ 0 <= 2 ^ k) by (apply Z.pow_le_mono_r; lia); simpl in *; lia|].
        pose proof (Zdigits2_bounds mx ltac:(lia)) as [_ Hhi].
        assert (mx / 2 ^ Z.pos p < 2 ^ k); [|lia].
        apply Z.div_lt_upper_bound; [done|]. rewrite <- Z.pow_add_r by lia.
        assert (2 ^ Zdigits2 mx <= 2 ^ (Z.pos p + k)) by (apply Z.pow_le_mono_r; lia).
        lia. }
      pose proof (Zdigits2_le_pow (mx / 2 ^ Z.pos p + 1) k ltac:(lia) ltac:(lia)).
      pose proof (Zdigits2_le_pow (mx / 2 ^ Z.pos p) k ltac:(lia) ltac:(lia)).
      lia.
    - eexists _, _. split; [done|]. rewrite shr_m_of_loc.
      assert (Zdigits2 mx <= 53) by lia.
      destruct (Z.eq_dec mx 0) as [->|]; [simpl; lia|].
      pose proof (Zdigits2_le_pow (mx + 1) (Zdigits2 mx)) as Hle.
      pose proof (Zdigits2_bounds mx ltac:(lia)). lia. }
  destruct H1 as (mrs & e1 & -> & He1 & Hm1 & Hd1 & Hd1').
  pose proof (round_nearest_even_bounds (shr_m mrs) (loc_of_shr_record mrs)) as Hr.
  set (m2 := round_nearest_even _ _) in *.
  assert (Hd2 : Zdigits2 m2 + e1 <= 1024).
  { destruct (Z.eq_dec m2 (shr_m mrs)) as [->|]; [done|].
    by replace m2 with (shr_m mrs + 1) by lia. }
  unfold shr_fexp, shr. rewrite fexp_eq.
  destruct (Z.max (Zdigits2 m2 + e1 - 53) (-1074) - e1) as [|p|p] eqn:Hn;
    cbn [shr_record_of_loc shr_m].
  - destruct m2; [done| |done].
    destruct (Z.leb_spec e1 (emax - prec)); [done|]. unfold emax, prec in *. lia.
  - destruct (shr_m (SpecFloat.iter_pos _ _ _)); [done| |done].
    destruct (Z.leb_spec (e1 + Z.pos p) (emax - prec)); [done|].
    unfold emax, prec in *. lia.
  - destruct m2; [done| |done].
    destruct (Z.leb_spec e1 (emax - prec)); [done|]. unfold emax, prec in *. lia.
Qed.

(** The quotient of two positive integers [i <= n] never overflows. *)
Lemma SFdiv_int_finite (i n : positive) (s' : bool) :
  (i <= n)%positive ->
  SFdiv prec emax (S754_finite false i 0) (S754_finite false n 0) <> S754_infinity s'.
Proof.
  intros Hin. unfold SFdiv, SFdiv_core_binary. rewrite fexp_eq.
  pose proof (Zdigits2_mono (Zpos i) (Zpos n) ltac:(lia)) as Hd.
  pose proof (Zdigits2_nonneg (Zpos i)).
  set (e := Z.min _ _).
  assert (He : -1074 <= e <= -53) by (unfold e; lia).
  replace (0 - 0 - e) with (- e) by lia.
  destruct (- e) as [|p|p] eqn:Hs; [lia| |lia].
  rewrite Z.shiftl_mul_pow2 by lia.
  pose proof (Z_div_mod (Z.pos i * 2 ^ Z.pos p) (Z.pos n) ltac:(lia)) as Hdm.
  destruct (Z.div_eucl _ _) as [q r]. destruct Hdm as [Hq Hr].
  assert (HP : 0 < 2 ^ Z.pos p) by (apply Z.pow_pos_nonneg; lia).
  assert (0 <= q <= 2 ^ Z.pos p) by nia.
  apply binary_round_aux_finite; [lia|lia|].
  pose proof (Zdigits2_le_pow q (Z.pos p) ltac:(lia) ltac:(lia)). lia.
Qed.

Lemma int_truediv_defined (i n : Z) :
  0 <= i <= n -> 0 < n -> exists t, int_truediv i n = Ok t.
Proof.
  intros Hi Hn. destruct n as [|n|n]; [lia| |lia].
  destruct i as [|i|i]; [by eexists| |lia].
  unfold int_truediv. simpl Z.abs. simpl Z.to_pos. simpl Z.ltb.
  pose proof (SFdiv_int_finite i n) as Hfin.
  destruct (SFdiv _ _ _ _) as [s|s| |s m e]; try by eexists.
  exfalso. apply (Hfin s); [lia|done].
Qed.

(** ** The point deduplicator *)

Lemma fold_keeps_chain (l kept : list point) :
  fold_left (fun kept p => if keeps kept p then kept ++ [p] else kept) l kept
  = kept ++ chain_after (last kept) l.
Proof.
  revert kept; induction l as [|p l IH]; intros kept; simpl.
  - by rewrite app_nil_r.
  - unfold keeps at 2. destruct (last kept) as [q|] eqn:Hq.
    + destruct (far p q).
      * by rewrite IH, last_snoc, <- app_assoc.
      * by rewrite IH, Hq.
    + by rewrite IH, last_snoc, <- app_assoc.
Qed.

Lemma unique_points_chain (l : list point) :
  unique_points l = chain_after None l.
Proof. unfold unique_points. apply (fold_keeps_chain l []). Qed.

Lemma chain_after_idem (l : list point) (q : option point) :
  chain_after q (chain_after q l) = chain_after q l.
Proof.
  revert q; induction l as [|p l IH]; intros q; simpl; [done|].
  destruct q as [q|].
  - destruct (far p q) eqn:Hf; simpl; [|apply IH].
    by rewrite Hf, IH.
  - simpl. by rewrite IH.
Qed.

Lemma chain_after_head (l : list point) (b c : point) :
  chain_after (Some c) l !! 0%nat = Some b -> far b c = true.
Proof.
  induction l as [|p l IH]; simpl; [done|].
  destruct (far p c) eqn:Hf; simpl; [congruence|apply IH].
Qed.

(** Consecutive points of a chain are far from each other. *)
Lemma chain_after_far (l : list point) (q : option point) (i : nat) (a b : point) :
  chain_after q l !! i = Some a ->
  chain_after q l !! S i = Some b ->
  far b a = true.
Proof.
  revert q i; induction l as [|p l IH]; intros q i; simpl; [done|].
  destruct (match q with None => true | Some q0 => far p q0 end); [|apply IH].
  destruct i as [|i]; simpl.
  - intros [= <-]. apply chain_after_head.
  - apply IH.
Qed.

Lemma unique_points_snoc (pts : list point) (p : point) :
  unique_points (pts ++ [p])
  = if keeps (unique_points pts) p then unique_points pts ++ [p]
    else unique_points pts.
Proof. unfold unique_points. by rewrite fold_left_app. Qed.

(** ** Claims about the deduplicator and the emitter *)

(** C5: the deduplicator is idempotent: applying it to its own output
    returns that output unchanged, for every sequence of points. *)
Theorem unique_points_idempotent (l : list point) :
  unique_points (unique_points l) = unique_points l.
Proof. rewrite !unique_points_chain. apply chain_after_idem. Qed.

(** C4, as the spec states it, fails: a point whose differences from the last
    kept point are exactly 0.01 on both axes is not always kept. *)
Lemma tolerance_boundary_not_kept :
  ~ (forall (pts : list point) (q p : point),
        last (unique_points pts) = Some q ->
        abs (p.1 - q.1) = 0.01%float ->
        abs (p.2 - q.2) = 0.01%float ->
        unique_points (pts ++ [p]) = unique_points pts ++ [p]).
Proof.
  intros H.
  specialize (H [(0, 0)%float] (0, 0)%float (0.01, 0.01)%float
                eq_refl eq_refl eq_refl).
  vm_compute in H. discriminate H.
Qed.

(** C4, amended: after a non-empty chain a point is kept exactly when its
    difference from the last kept point is strictly greater than 0.01 on the
    x axis or on the y axis.  Hence a point whose differences are exactly 0.01
    on both axes is dropped, and so is one whose differences are 0.009 on both
    axes. *)
Theorem tolerance_boundary (pts : list point) (q p : point) (dx dy : float) :
  last (unique_points pts) = Some q ->
  dx = abs (p.1 - q.1) ->
  dy = abs (p.2 - q.2) ->
  unique_points (pts ++ [p])
  = (if (0.01 <? dx)%float || (0.01 <? dy)%float
     then unique_points pts ++ [p] else unique_points pts) /\
  (dx = 0.01%float -> dy = 0.01%float ->
   unique_points (pts ++ [p]) = unique_points pts) /\
  (dx = 0.009%float -> dy = 0.009%float ->
   unique_points (pts ++ [p]) = unique_points pts).
Proof.
  intros Hq -> ->.
  assert (Hk : unique_points (pts ++ [p])
               = if (0.01 <? abs (p.1 - q.1))%float || (0.01 <? abs (p.2 - q.2))%float
                 then unique_points pts ++ [p] else unique_points pts).
  { rewrite unique_points_snoc. unfold keeps. by rewrite Hq. }
  split; [exact Hk|].
  split; intros Hx Hy; rewrite Hk, Hx, Hy; done.
Qed.

Lemma tolerance_boundary_witness :
  unique_points ([(0, 0)] ++ [(0.01, 0.01)])%float = unique_points [(0, 0)%float] /\
  unique_points ([(0, 0)] ++ [(0.009, 0.009)])%float = unique_points [(0, 0)%float].
Proof.
  split.
  - exact (proj1 (proj2 (tolerance_boundary [(0, 0)%float] (0, 0)%float
                           (0.01, 0.01)%float 0.01%float 0.01%float
                           eq_refl eq_refl eq_refl)) eq_refl eq_refl).
  - exact (proj2 (proj2 (tolerance_boundary [(0, 0)%float] (0, 0)%float
                           (0.009, 0.009)%float 0.009%float 0.009%float
                           eq_refl eq_refl eq_refl)) eq_refl eq_refl).
Defined.

(** C6: when the deduplicated chain of a path has fewer than two points, the
    path adds no polyline to the document and raises nothing; when it has
    exactly two points, the chain is added as one polyline. *)
Theorem chain_survival (w : float) (vb : list string) (path_idx : nat)
    (path : Path) (scale : float) (n : Z) (pts : list point) (st : world) :
  scale_factor w vb = Ok scale ->
  num_samples (path_length_mm path scale) = Ok n ->
  polyline_points path scale n = Ok pts ->
  ((length (unique_points pts) < 2)%nat ->
   convert_path w vb path_idx path st = (st, Ok tt)) /\
  (length (unique_points pts) = 2%nat ->
   convert_path w vb path_idx path st
   = (World (msp st ++ [unique_points pts])
        (stdout st ++ [PathLine path_idx (path_length_mm path scale) 2]),
      Ok tt)).
Proof.
  intros Hs Hn Hp. unfold convert_path, mbind, lift, emit.
  rewrite Hs, Hn, Hp. split; intros Hlen.
  - destruct (Nat.ltb_spec 1 (length (unique_points pts))); [lia|].
    by destruct st.
  - by rewrite Hlen.
Qed.

Lemma chain_survival_witness :
  convert_path 21.6 default_viewbox 0 dot_path new = (new, Ok tt) /\
  convert_path 21.6 default_viewbox 0 jump_path new
  = (World [[(0, 0); (18, 0)]%float] [PathLine 0 0 2], Ok tt).
Proof.
  split.
  - refine (proj1 (chain_survival 21.6 default_viewbox 0 dot_path 1.8 2
                     [(5.4, 7.2); (5.4, 7.2); (5.4, 7.2)]%float new _ _ _) _);
      vm_compute; (reflexivity || lia).
  - refine (proj2 (chain_survival 21.6 default_viewbox 0 jump_path 1.8 2
                     [(0, 0); (18, 0); (18, 0)]%float new _ _ _) _);
      vm_compute; reflexivity.
Defined.


(** ** Claims about the sample count *)

Lemma float_of_POINTS_PER_MM : float_of_int POINTS_PER_MM = Ok 10%float.
Proof. vm_compute. reflexivity. Qed.

Lemma Prim2SF_ten : Prim2SF 10 = S754_finite false 5629499534213120 (-49).
Proof. vm_compute. reflexivity. Qed.

Lemma num_samples_unfold (L : float) :
  num_samples L = (k <- int_of_float (L * 10)%float; Ok (Z.max 2 k)).
Proof. unfold num_samples. by rewrite float_of_POINTS_PER_MM. Qed.

Lemma num_samples_ge_2 (L : float) (N : Z) : num_samples L = Ok N -> 2 <= N.
Proof.
  rewrite num_samples_unfold.
  destruct (int_of_float _); simpl; [|done]. intros [= <-]. lia.
Qed.

(** C9: the sample count is monotone in the physical length: when L1 < L2
    and L2 has sample count N2, every sample count N1 of L1 satisfies
    N1 <= N2, and L1 has a sample count when it is not negative. *)
Theorem num_samples_monotone (L1 L2 : float) (N2 : Z) :
  (L1 <? L2)%float = true ->
  num_samples L2 = Ok N2 ->
  (forall N1, num_samples L1 = Ok N1 -> N1 <= N2) /\
  ((0 <=? L1)%float = true -> exists N1, num_samples L1 = Ok N1 /\ N1 <= N2).
Proof.
  intros Hlt. rewrite !num_samples_unfold.
  destruct (int_of_float (L2 * 10)) as [k2|] eqn:H2; [|done].
  simpl. intros [= <-].
  assert (Hle : forall N1, (k <- int_of_float (L1 * 10)%float; Ok (Z.max 2 k)) = Ok N1 ->
                           N1 <= Z.max 2 k2).
  { intros N1. destruct (int_of_float (L1 * 10)) as [k1|] eqn:H1; [|done].
    simpl. intros [= <-].
    pose proof (int_of_mul_mono L1 L2 10 _ _ k1 k2 Prim2SF_ten Hlt H1 H2). lia. }
  split; [exact Hle|]. intros H0.
  destruct (int_of_mul_defined L1 L2 10 _ _ k2 Prim2SF_ten H0 Hlt H2) as [k1 H1].
  exists (Z.max 2 k1). split; [by rewrite H1|]. apply Hle. by rewrite H1.
Qed.

Lemma num_samples_monotone_witness :
  num_samples 1 = Ok 10 /\ 10 <= 432 /\
  exists N1, num_samples 1 = Ok N1 /\ N1 <= 432.
Proof.
  pose proof (num_samples_monotone 1 43.2 432 eq_refl eq_refl) as [Hle Hex].
  exact (conj eq_refl (conj (Hle 10 eq_refl) (Hex eq_refl))).
Defined.

Lemma int_of_zero_mul (x c : float) (s : bool) (mc : positive) (ec : Z) :
  Prim2SF x = S754_zero s ->
  Prim2SF c = S754_finite false mc ec ->
  int_of_float (x * c) = Ok 0.
Proof.
  intros Hx Hc. unfold int_of_float. by rewrite mul_spec, Hx, Hc.
Qed.

(** C1: the sample count of a curve is max(2, floor(L * 10)), where L is the
    length of the curve times the scale factor, whenever L * 10 is finite
    (int() raises otherwise); every sample count is at least 2, and a curve
    of length 0 has sample count 2 under any finite scale factor. *)
Theorem num_samples_spec (path : Path) (scale : float) :
  let L := path_length_mm path scale in
  (forall k, floor_of_float (L * 10) = Some k -> num_samples L = Ok (Z.max 2 k)) /\
  (forall N, num_samples L = Ok N ->
     2 <= N /\ exists k, floor_of_float (L * 10) = Some k /\ N = Z.max 2 k) /\
  (Path_length path = 0%float -> finite_float scale = true -> num_samples L = Ok 2).
Proof.
  intros L.
  assert (Hfloor : forall k, floor_of_float (L * 10) = Some k ->
                             num_samples L = Ok (Z.max 2 k)).
  { intros k. rewrite num_samples_unfold.
    unfold floor_of_float, int_of_float, int_of_spec_float.
    destruct (Prim2SF (L * 10)) as [s|s| |s m e]; try done.
    - by intros [= <-].
    - intros [= <-]. cbn [bind]. f_equal. destruct s; cbn [cond_Zopp]; [|done].
      pose proof (shiftl_nonneg (Z.pos m) e ltac:(lia)).
      pose proof (proj1 (Z.shiftl_nonneg (- Z.pos m) e)). lia. }
  split; [exact Hfloor|]. split.
  - intros N HN. split; [by apply num_samples_ge_2 in HN|].
    destruct (floor_of_float (L * 10)) as [k|] eqn:Hk.
    + exists k. split; [done|]. rewrite (Hfloor k eq_refl) in HN. congruence.
    + exfalso. revert HN Hk. rewrite num_samples_unfold.
      unfold floor_of_float, int_of_float, int_of_spec_float.
      by destruct (Prim2SF (L * 10)).
  - intros H0 Hfin. rewrite num_samples_unfold.
    assert (exists s, Prim2SF L = S754_zero s) as [s Hs].
    { unfold L, path_length_mm. rewrite H0, mul_spec.
      change (Prim2SF 0) with (S754_zero false).
      unfold finite_float in Hfin.
      destruct (Prim2SF scale); try done; by eexists. }
    by rewrite (int_of_zero_mul L 10 s _ _ Hs Prim2SF_ten).
Qed.

Lemma num_samples_spec_witness :
  num_samples (path_length_mm segment_path 1.8) = Ok (Z.max 2 432) /\
  num_samples (path_length_mm dot_path 1.8) = Ok 2.
Proof.
  split.
  - exact (proj1 (num_samples_spec segment_path 1.8) 432 eq_refl).
  - exact (proj2 (proj2 (num_samples_spec dot_path 1.8)) eq_refl eq_refl).
Defined.

(** ** Claims about the scale factor and the sampled points *)

(** C3: the scale factor is the declared width divided by the viewbox width,
    the float quotient with nothing applied to it; for a declared width of
    21.6 and a viewbox width of 12 it is 1.8. *)
Theorem scale_factor_spec (svg_attributes : gmap string string) (W V : float)
    (v : string) :
  svg_width_mm svg_attributes = Ok W ->
  viewbox svg_attributes !! 2%nat = Some v ->
  float_of_str v = Ok V ->
  (V =? 0)%float = false ->
  scale_factor W (viewbox svg_attributes) = Ok (W / V)%float /\
  (W = 21.6%float -> V = 12%float ->
   scale_factor W (viewbox svg_attributes) = Ok 1.8%float).
Proof.
  intros _ Hv HV Hnz.
  assert (Hs : scale_factor W (viewbox svg_attributes) = Ok (W / V)%float).
  { unfold scale_factor, getitem, float_truediv. rewrite Hv. simpl.
    rewrite HV. simpl. by rewrite Hnz. }
  split; [exact Hs|]. intros -> ->. exact Hs.
Qed.

Lemma scale_factor_spec_witness :
  scale_factor 21.6 (viewbox ∅) = Ok (21.6 / 12)%float /\
  scale_factor 21.6 (viewbox ∅) = Ok 1.8%float.
Proof.
  pose proof (scale_factor_spec ∅ 21.6 12 "12" eq_refl eq_refl eq_refl eq_refl)
    as [H1 H2].
  exact (conj H1 (H2 eq_refl eq_refl)).
Defined.

Lemma collect_spec {A B} (f : A -> result B) (xs : list A) :
  (forall x, x ∈ xs -> exists b, f x = Ok b) ->
  exists bs, collect f xs = Ok bs /\ length bs = length xs /\
             forall (i : nat) x, xs !! i = Some x ->
                                 exists b, f x = Ok b /\ bs !! i = Some b.
Proof.
  induction xs as [|x xs IH]; intros Hdef; simpl.
  - exists []. by split.
  - destruct (Hdef x ltac:(left)) as [b Hb].
    destruct IH as (bs & Hbs & Hlen & Hnth).
    { intros y Hy. apply Hdef. by right. }
    exists (b :: bs). rewrite Hb, Hbs. simpl. split; [done|]. split; [by rewrite Hlen|].
    intros [|i] y; simpl.
    + intros [= <-]. by exists b.
    + apply Hnth.
Qed.

(** Sampling succeeds for every positive sample count. *)
Lemma polyline_points_defined (path : Path) (scale : float) (N : Z) :
  0 < N ->
  exists pts,
    polyline_points path scale N = Ok pts /\
    length pts = Z.to_nat (N + 1) /\
    forall i, 0 <= i <= N ->
      exists t, int_truediv i N = Ok t /\
                pts !! Z.to_nat i
                = Some ((real (Path_point path t) * scale)%float,
                        (imag (Path_point path t) * scale)%float).
Proof.
  intros HN. unfold polyline_points, range.
  destruct (collect_spec (sample path scale N) (seqZ 0 (N + 1))) as (pts & Hp & Hlen & Hnth).
  { intros i [Hi0 Hi]%elem_of_seqZ. unfold sample.
    destruct (int_truediv_defined i N ltac:(lia) HN) as [t ->]. by eexists. }
  exists pts. split; [done|]. split; [by rewrite Hlen, length_seqZ|].
  intros i Hi.
  destruct (Hnth (Z.to_nat i) i) as (b & Hb & Hlook).
  { apply lookup_seqZ. lia. }
  unfold sample in Hb.
  destruct (int_truediv i N) as [t|]; [|done]. cbn [bind] in Hb.
  injection Hb as <-. by exists t.
Qed.

(** C7: with width 21.6mm, height 37.8mm and viewBox -40 -30 12 21, a curve of
    length 24 has physical length 43.2, sample count
    max(2, floor(43.2 * 10)) = 432 and 433 sampled points. *)
Theorem end_to_end (path : Path) :
  Path_length path = 24%float ->
  exists pts,
    svg_width_mm scenario_attributes = Ok 21.6%float /\
    svg_height_mm scenario_attributes = Ok 37.8%float /\
    scale_factor 21.6 (viewbox scenario_attributes) = Ok 1.8%float /\
    path_length_mm path 1.8 = 43.2%float /\
    floor_of_float (43.2 * 10) = Some 432 /\
    num_samples 43.2 = Ok 432 /\
    polyline_points path 1.8 432 = Ok pts /\
    length pts = 433%nat.
Proof.
  intros Hlen.
  destruct (polyline_points_defined path 1.8 432 ltac:(lia)) as (pts & Hp & Hl & _).
  exists pts. split; [by vm_compute|]. split; [by vm_compute|].
  split; [by vm_compute|].
  split; [unfold path_length_mm; by rewrite Hlen|].
  split; [by vm_compute|]. split; [by vm_compute|]. done.
Qed.

Lemma end_to_end_witness :
  exists pts,
    svg_width_mm scenario_attributes = Ok 21.6%float /\
    svg_height_mm scenario_attributes = Ok 37.8%float /\
    scale_factor 21.6 (viewbox scenario_attributes) = Ok 1.8%float /\
    path_length_mm segment_path 1.8 = 43.2%float /\
    floor_of_float (43.2 * 10) = Some 432 /\
    num_samples 43.2 = Ok 432 /\
    polyline_points segment_path 1.8 432 = Ok pts /\
    length pts = 433%nat.
Proof. exact (end_to_end segment_path eq_refl). Defined.

(** ** Sampling a path on which [path.point] can raise *)

Lemma collect_ext {A B} (f g : A -> result B) (xs : list A) :
  (forall x, f x = g x) -> collect f xs = collect g xs.
Proof.
  intros Hfg. induction xs as [|x xs IH]; simpl; [done|]. by rewrite Hfg, IH.
Qed.


(** On a path whose point query never raises the two loops agree. *)
Lemma curve_points_of_path (path : Path) (scale : float) (N : Z) :
  curve_points (curve_of path) scale N = polyline_points path scale N.
Proof.
  unfold curve_points, polyline_points. apply collect_ext. intros i.
  unfold curve_sample, sample. by destruct (int_truediv i N).
Qed.




(** ** Claims about a whole conversion *)

Lemma convert_path_same_msp (w : float) (vb : list string) (i : nat)
    (path : Path) (st1 st2 : world) :
  msp st1 = msp st2 ->
  same_msp (convert_path w vb i path st1) (convert_path w vb i path st2).
Proof.
  intros Hm. unfold convert_path, mbind, lift, same_msp.
  destruct (scale_factor w vb) as [scale|]; [|done].
  destruct (num_samples _) as [n|]; [|done].
  destruct (polyline_points path scale n) as [pts|]; [|done].
  unfold emit. destruct (1 <? length (unique_points pts))%nat; [|done].
  unfold mbind, add_lwpolyline, print. simpl. by rewrite Hm.
Qed.

Lemma for_enumerate_same_msp (body : nat -> Path -> M unit) (paths : list Path) :
  (forall i path st1 st2, msp st1 = msp st2 ->
                          same_msp (body i path st1) (body i path st2)) ->
  forall i st1 st2, msp st1 = msp st2 ->
    same_msp (for_enumerate i paths body st1) (for_enumerate i paths body st2).
Proof.
  intros Hbody. induction paths as [|path paths IH]; intros i st1 st2 Hm; simpl.
  - done.
  - unfold mbind. destruct (Hbody i path st1 st2 Hm) as [Hm' Hr].
    destruct (body i path st1) as [st1' [[]|e1]], (body i path st2) as [st2' [[]|e2]];
      simpl in *; try done.
    by apply IH.
Qed.

Lemma for_enumerate_ext (body1 body2 : nat -> Path -> M unit) (paths : list Path) :
  (forall i path st, body1 i path st = body2 i path st) ->
  forall i st, for_enumerate i paths body1 st = for_enumerate i paths body2 st.
Proof.
  intros Hbody. induction paths as [|path paths IH]; intros i st; simpl; [done|].
  unfold mbind. rewrite Hbody. destruct (body2 i path st) as [st' [[]|e]]; [|done].
  apply IH.
Qed.

(** The model space and the outcome of a conversion do not depend on the
    height that is printed. *)
Lemma convert_after_header (filename : string) (paths : list Path)
    (svg_attributes : gmap string string) (w h : float) :
  svg_width_mm svg_attributes = Ok w ->
  svg_height_mm svg_attributes = Ok h ->
  same_msp (convert filename paths svg_attributes new)
           (for_enumerate 0 paths (convert_path w (viewbox svg_attributes)) new).
Proof.
  intros Hw Hh. unfold convert, mbind, lift. rewrite Hw, Hh.
  unfold print at 1. simpl.
  pose proof (for_enumerate_same_msp _ paths (convert_path_same_msp w (viewbox svg_attributes))
                0%nat (World [] [SvgLine filename w h]) new eq_refl) as [Hm Hr].
  destruct (for_enumerate _ _ _ (World _ _)) as [st1 [[]|e1]],
           (for_enumerate _ _ _ new) as [st2 [[]|e2]]; simpl in *; try done.
Qed.

Lemma saved_same_msp (filename : string) (paths : list Path)
    (a : gmap string string) (r : world * result unit) :
  same_msp (convert filename paths a new) r ->
  saved filename paths a = match r with
                           | (w, Ok _) => Ok (msp w)
                           | (_, Raise e) => Raise e
                           end.
Proof.
  unfold saved, same_msp. destruct (convert _ _ _ _) as [w1 [[]|e1]], r as [w2 [[]|e2]];
    simpl; intros [Hm Hr]; congruence.
Qed.

(** C10: two documents that differ only in their height, both heights
    parseable, have the same scale factor, sampled points and deduplicated
    chains for every path, and their conversions add the same polylines and
    end the same way. *)
Theorem height_irrelevant (filename : string) (paths : list Path)
    (a1 a2 : gmap string string) (h1 h2 : float) :
  (forall k : string, k <> "height" -> a1 !! k = a2 !! k) ->
  svg_height_mm a1 = Ok h1 ->
  svg_height_mm a2 = Ok h2 ->
  (forall path, geometry a1 path = geometry a2 path) /\
  same_msp (convert filename paths a1 new) (convert filename paths a2 new) /\
  saved filename paths a1 = saved filename paths a2.
Proof.
  intros Hsame Hh1 Hh2.
  assert (Hw : svg_width_mm a1 = svg_width_mm a2).
  { unfold svg_width_mm, width. by rewrite Hsame. }
  assert (Hvb : viewbox a1 = viewbox a2).
  { unfold viewbox. by rewrite Hsame. }
  split; [intros path; unfold geometry; by rewrite Hw, Hvb|].
  assert (Hc : same_msp (convert filename paths a1 new) (convert filename paths a2 new)).
  { destruct (svg_width_mm a2) as [w|e] eqn:Hw2.
    - destruct (convert_after_header filename paths a1 w h1 Hw Hh1) as [Hm1 Hr1].
      destruct (convert_after_header filename paths a2 w h2 Hw2 Hh2) as [Hm2 Hr2].
      rewrite <- Hvb in Hm2, Hr2. split; congruence.
    - unfold convert, mbind, lift. by rewrite Hw, Hw2. }
  split; [exact Hc|].
  by apply saved_same_msp.
Qed.

Lemma height_irrelevant_witness :
  saved "a.svg" [jump_path] {[ "height" := "10mm" ]}
  = saved "a.svg" [jump_path] {[ "height" := "99" ]}.
Proof.
  refine (proj2 (proj2 (height_irrelevant "a.svg" [jump_path]
                          {[ "height" := "10mm" ]} {[ "height" := "99" ]} 10 99
                          _ eq_refl eq_refl))).
  intros k Hk. by rewrite !lookup_singleton_ne.
Defined.

Lemma float_of_str_raises (s : string) (e : exn) :
  float_of_str s = Raise e -> e = ValueError.
Proof.
  unfold float_of_str. destruct (sign (strip s)) as [neg r].
  destruct (_ || _); [done|]. destruct (String.eqb _ "nan"); [done|].
  destruct (number r) as [[[ip fp] r']|]; [|congruence].
  destruct (exponent r'); [done|congruence].
Qed.

Lemma mm_to_float_raises (s : string) (e : exn) :
  mm_to_float s = Raise e -> e = ValueError.
Proof. unfold mm_to_float. destruct (endswith s "mm"); apply float_of_str_raises. Qed.

Lemma scale_factor_third_field (w : float) (vb1 vb2 : list string) :
  vb1 !! 2%nat = vb2 !! 2%nat -> scale_factor w vb1 = scale_factor w vb2.
Proof. intros H. unfold scale_factor, getitem. by rewrite H. Qed.

(** C8, as the spec states it, fails: a non-numeric viewbox field does not
    always end the conversion with an exception. *)
Lemma viewbox_field_not_fatal :
  ~ (forall (filename : string) (paths : list Path)
            (svg_attributes : gmap string string) (i : nat) (v : string),
        viewbox svg_attributes !! i = Some v ->
        float_of_str v = Raise ValueError ->
        exists e, saved filename paths svg_attributes = Raise e).
Proof.
  intros H.
  destruct (H "a.svg" [jump_path] {[ "viewBox" := "a b 12 c" ]} 0%nat "a")
    as [e He]; [by vm_compute..|].
  vm_compute in He. discriminate He.
Qed.

(** C8, amended: a width or height that does not parse as a float, after a
    trailing mm is removed, ends the conversion with ValueError before
    anything is printed or added; so does a third viewbox field that does not
    parse, when the document has at least one path.  The other viewbox fields
    are never parsed: documents with the same width, height and third viewbox
    field convert alike. *)
Theorem parse_failure_fatal (filename : string) (paths : list Path)
    (svg_attributes : gmap string string) :
  (forall e, svg_width_mm svg_attributes = Raise e ->
     convert filename paths svg_attributes new = (new, Raise ValueError) /\
     saved filename paths svg_attributes = Raise ValueError) /\
  (forall e, svg_height_mm svg_attributes = Raise e ->
     convert filename paths svg_attributes new = (new, Raise ValueError) /\
     saved filename paths svg_attributes = Raise ValueError) /\
  (forall w h v e,
     svg_width_mm svg_attributes = Ok w ->
     svg_height_mm svg_attributes = Ok h ->
     viewbox svg_attributes !! 2%nat = Some v ->
     float_of_str v = Raise e ->
     paths <> [] ->
     convert filename paths svg_attributes new
     = (World [] [SvgLine filename w h], Raise ValueError) /\
     saved filename paths svg_attributes = Raise ValueError) /\
  (forall other : gmap string string,
     width other = width svg_attributes ->
     height other = height svg_attributes ->
     viewbox other !! 2%nat = viewbox svg_attributes !! 2%nat ->
     convert filename paths other new = convert filename paths svg_attributes new).
Proof.
  split; [|split; [|split]].
  - intros e He. pose proof (mm_to_float_raises _ _ He) as ->.
    unfold saved, convert, mbind, lift. by rewrite He.
  - intros e He. pose proof (mm_to_float_raises _ _ He) as ->.
    unfold saved, convert, mbind, lift. rewrite He.
    destruct (svg_width_mm svg_attributes) as [w|e'] eqn:Hw; [done|].
    by pose proof (mm_to_float_raises _ _ Hw) as ->.
  - intros w h v e Hw Hh Hv He Hp. pose proof (float_of_str_raises _ _ He) as ->.
    destruct paths as [|path paths]; [done|].
    assert (Hs : scale_factor w (viewbox svg_attributes) = Raise ValueError).
    { unfold scale_factor, getitem. rewrite Hv. simpl. by rewrite He. }
    unfold saved, convert, mbind, lift. rewrite Hw, Hh. simpl.
    unfold mbind, convert_path, mbind, lift. by rewrite Hs.
  - intros other Hwd Hht Hvb. unfold convert, svg_width_mm, svg_height_mm, mbind, lift.
    rewrite Hwd, Hht.
    destruct (mm_to_float (width svg_attributes)) as [w|]; [|done].
    destruct (mm_to_float (height svg_attributes)) as [h|]; [|done].
    simpl.
    rewrite (for_enumerate_ext (convert_path w (viewbox other))
               (convert_path w (viewbox svg_attributes))); [done|].
    intros i path st. unfold convert_path, mbind, lift.
    by rewrite (scale_factor_third_field w _ _ Hvb).
Qed.

Lemma parse_failure_fatal_witness :
  saved "a.svg" [dot_path] {[ "width" := "12cm" ]} = Raise ValueError /\
  saved "a.svg" [dot_path] {[ "height" := "tall" ]} = Raise ValueError /\
  saved "a.svg" [dot_path] {[ "viewBox" := "0 0 wide 21" ]} = Raise ValueError /\
  convert "a.svg" [dot_path] {[ "viewBox" := "a b 12 c" ]} new
  = convert "a.svg" [dot_path] ∅ new.
Proof.
  split; [|split; [|split]].
  - exact (proj2 (proj1 (parse_failure_fatal "a.svg" [dot_path] {[ "width" := "12cm" ]})
                    ValueError eq_refl)).
  - exact (proj2 (proj1 (proj2 (parse_failure_fatal "a.svg" [dot_path]
                                  {[ "height" := "tall" ]}))
                    ValueError eq_refl)).
  - refine (proj2 (proj1 (proj2 (proj2 (parse_failure_fatal "a.svg" [dot_path]
                                          {[ "viewBox" := "0 0 wide 21" ]})))
                     21.6%float 37.8%float "wide" ValueError
                     eq_refl eq_refl eq_refl eq_refl _)).
    discriminate.
  - exact (proj2 (proj2 (proj2 (parse_failure_fatal "a.svg" [dot_path] ∅)))
             {[ "viewBox" := "a b 12 c" ]} eq_refl eq_refl eq_refl).
Defined.

(** * Further properties of the script *)

(** ** More on the point deduplicator *)

Lemma Prim2SF_tolerance : Prim2SF 0.01 = S754_finite false 5764607523034235 (-59).
Proof. vm_compute. reflexivity. Qed.

(** The difference of a float with itself is zero or NaN. *)
Lemma abs_sub_self (x : float) :
  Prim2SF (abs (x - x)) = S754_zero false \/ Prim2SF (abs (x - x)) = S754_nan.
Proof.
  rewrite abs_spec, sub_spec. unfold SF64sub, SFsub.
  destruct (Prim2SF x) as [[]|[]| |s m e]; simpl; auto.
  rewrite Z.sub_diag. by left.
Qed.

Lemma not_beyond_tolerance_self (x : float) : (0.01 <? abs (x - x))%float = false.
Proof.
  rewrite ltb_spec, Prim2SF_tolerance. by destruct (abs_sub_self x) as [-> | ->].
Qed.

Lemma far_irrefl (p : point) : far p p = false.
Proof. unfold far. by rewrite !not_beyond_tolerance_self. Qed.

Lemma chain_after_repeat (p : point) (n : nat) :
  chain_after (Some p) (replicate n p) = [].
Proof. induction n as [|n IH]; simpl; [done|]. by rewrite far_irrefl. Qed.

Lemma unique_points_replicate (p : point) (n : nat) :
  unique_points (replicate (S n) p) = [p].
Proof. rewrite unique_points_chain. simpl. by rewrite chain_after_repeat. Qed.

(** X1: a point equal to the last point kept is never kept, whatever its
    coordinates; a run of equal points collapses to one point. *)
Theorem duplicates_collapse (pts : list point) (p : point) (n : nat) :
  (last (unique_points pts) = Some p ->
   unique_points (pts ++ replicate n p) = unique_points pts) /\
  unique_points (replicate (S n) p) = [p].
Proof.
  split; [|apply unique_points_replicate].
  intros Hlast. unfold unique_points. rewrite fold_left_app, fold_keeps_chain.
  fold (unique_points pts). by rewrite Hlast, chain_after_repeat, app_nil_r.
Qed.

Lemma duplicates_collapse_witness :
  unique_points ([(1, 2)] ++ replicate 3 (1, 2))%float = unique_points [(1, 2)%float] /\
  unique_points (replicate 4 (1, 2)%float) = [(1, 2)%float].
Proof.
  destruct (duplicates_collapse [(1, 2)%float] (1, 2)%float 3) as [H1 H2].
  exact (conj (H1 eq_refl) H2).
Defined.

Lemma chain_after_sublist (q : option point) (l : list point) :
  chain_after q l `sublist_of` l.
Proof.
  revert q; induction l as [|p l IH]; intros q; simpl; [done|].
  destruct (match q with None => true | Some q0 => far p q0 end).
  - by apply sublist_skip.
  - by apply sublist_cons.
Qed.

(** X2: the deduplicator only removes points: its output is a subsequence of
    its input, in the same order, that starts with the same point. *)
Theorem unique_points_subsequence (l : list point) :
  unique_points l `sublist_of` l /\
  (length (unique_points l) <= length l)%nat /\
  head (unique_points l) = head l.
Proof.
  rewrite unique_points_chain. split; [apply chain_after_sublist|].
  split; [apply sublist_length, chain_after_sublist|].
  by destruct l.
Qed.

(** X3: in the output of the deduplicator every point is beyond the
    tolerance of the point before it, on one axis at least. *)
Theorem unique_points_consecutive_far (l : list point) (i : nat) (a b : point) :
  unique_points l !! i = Some a ->
  unique_points l !! S i = Some b ->
  far b a = true.
Proof. rewrite unique_points_chain. apply chain_after_far. Qed.

Lemma unique_points_consecutive_far_witness :
  far (1, 1)%float (0.02, 0)%float = true.
Proof.
  exact (unique_points_consecutive_far
           [(0, 0); (0.01, 0.01); (0.009, 0.009); (0.02, 0); (1, 1)]%float 1
           (0.02, 0)%float (1, 1)%float eq_refl eq_refl).
Defined.

(** X4: the last point of the input is the last point kept or is within the
    tolerance of it on both axes: a chain stops at the end of its curve or
    just short of it. *)
Theorem unique_points_last (pts : list point) (p : point) :
  exists q, last (unique_points (pts ++ [p])) = Some q /\ (q = p \/ far p q = false).
Proof.
  rewrite unique_points_snoc. unfold keeps.
  destruct (last (unique_points pts)) as [q|] eqn:Hq.
  - destruct (far p q) eqn:Hf.
    + exists p. rewrite last_snoc. auto.
    + exists q. auto.
  - exists p. rewrite last_snoc. auto.
Qed.

Lemma not_beyond_tolerance_nan (x : float) :
  (0.01 <? abs (x - nan))%float = false /\ (0.01 <? abs (nan - x))%float = false.
Proof.
  rewrite !ltb_spec, !abs_spec, !sub_spec, Prim2SF_tolerance.
  change (Prim2SF nan) with S754_nan. unfold SF64sub, SFsub.
  by destruct (Prim2SF x) as [[]|[]| |[] m e].
Qed.

Lemma chain_after_nan (l : list point) : chain_after (Some (nan, nan)) l = [].
Proof.
  induction l as [|p l IH]; simpl; [done|]. unfold far. simpl.
  by rewrite !(proj1 (not_beyond_tolerance_nan _)).
Qed.

(** X5: NaN coordinates: a point whose two coordinates are NaN is kept only
    as the first point of a chain, and then no later point is kept. *)
Theorem unique_points_nan (pts l : list point) :
  (forall q, last (unique_points pts) = Some q ->
             unique_points (pts ++ [(nan, nan)]) = unique_points pts) /\
  unique_points ((nan, nan) :: l) = [(nan, nan)].
Proof.
  split.
  - intros q Hq. rewrite unique_points_snoc. unfold keeps, far. rewrite Hq. simpl.
    by rewrite !(proj2 (not_beyond_tolerance_nan _)).
  - rewrite unique_points_chain. simpl. by rewrite chain_after_nan.
Qed.

Lemma unique_points_nan_witness :
  unique_points ([(0, 0)%float] ++ [(nan, nan)]) = unique_points [(0, 0)%float] /\
  unique_points [(nan, nan); (1, 1); (5, 5)]%float = [(nan, nan)].
Proof.
  destruct (unique_points_nan [(0, 0)%float] [(1, 1); (5, 5)]%float) as [H1 H2].
  exact (conj (H1 (0, 0)%float eq_refl) H2).
Defined.

(** ** More on the sampled points *)

Lemma int_truediv_zero (n : Z) : 0 < n -> int_truediv 0 n = Ok 0%float.
Proof. destruct n as [|n|n]; [lia| |lia]. reflexivity. Qed.

Lemma SFdiv_self (n : positive) :
  SFdiv prec emax (S754_finite false n 0) (S754_finite false n 0)
  = S754_finite false 4503599627370496 (-52).
Proof.
  unfold SFdiv, SFdiv_core_binary.
  replace (Zdigits2 (Z.pos n) + 0 - (Zdigits2 (Z.pos n) + 0)) with 0 by lia.
  change (Z.min (fexp prec emax 0) (0 - 0)) with (-53).
  change (0 - 0 - -53) with 53.
  rewrite Z.shiftl_mul_pow2 by lia.
  pose proof (Z_div_mod (Z.pos n * 2 ^ 53) (Z.pos n) ltac:(lia)) as Hdm.
  destruct (Z.div_eucl _ _) as [q r]. destruct Hdm as [Hq Hr].
  assert (q = 2 ^ 53 /\ r = 0) as [-> ->].
  { revert Hq. generalize (2 ^ 53). intros P Hq.
    assert (q = P); [|lia].
    destruct (Z.lt_trichotomy q P) as [?|[?|?]]; [nia|done|nia]. }
  assert (Hloc : new_location (Z.pos n) 0 = loc_Exact).
  { unfold new_location, new_location_even, new_location_odd.
    by destruct (Z.even _). }
  rewrite Hloc. vm_compute. reflexivity.
Qed.

Lemma int_truediv_self (n : Z) : 0 < n -> int_truediv n n = Ok 1%float.
Proof.
  destruct n as [|n|n]; [lia| |lia]. intros _.
  unfold int_truediv. simpl Z.abs. simpl Z.to_pos. simpl Z.ltb.
  rewrite SFdiv_self. vm_compute. reflexivity.
Qed.

(** *** The quotient of two integers lies between 0 and 1 *)

Lemma second_phase_mantissa (m e : Z) :
  0 <= m <= 2 ^ 53 -> -1074 <= e ->
  exists mrs,
    shr_fexp prec emax m e loc_Exact = (mrs, e + (if m =? 2 ^ 53 then 1 else 0)) /\
    shr_m mrs = if m =? 2 ^ 53 then 2 ^ 52 else m.
Proof.
  intros [Hm0 Hm] He. unfold shr_fexp, shr. rewrite fexp_eq.
  destruct (Z.eqb_spec m (2 ^ 53)) as [->|Hne].
  - change (Zdigits2 (2 ^ 53)) with 54.
    replace (Z.max (54 + e - 53) (-1074) - e) with 1 by lia.
    eexists. split; reflexivity.
  - assert (Hd : Zdigits2 m <= 53).
    { pose proof (Zdigits2_le_pow m 52) as H52.
      destruct (Z.eq_dec m 0) as [->|]; [simpl; lia|].
      pose proof (Zdigits2_bounds m ltac:(lia)) as [Hlo _].
      destruct (Z.le_gt_cases (Zdigits2 m) 53); [done|].
      assert (2 ^ 53 <= 2 ^ (Zdigits2 m - 1)) by (apply Z.pow_le_mono_r; lia). lia. }
    destruct (Z.max (Zdigits2 m + e - 53) (-1074) - e) as [|p|p] eqn:Hn; [|lia|].
    + eexists. split; [by rewrite Z.add_0_r|done].
    + eexists. split; [by rewrite Z.add_0_r|done].
Qed.

(** Rounding a mantissa [q < 2^s] at the exponent [-s], when it has digits
    enough for that exponent: the result is a valid float that is zero or
    positive and at most 1. *)
Lemma binary_round_aux_unit (q e : Z) (lx : location) :
  0 <= q < 2 ^ (- e) -> -1074 <= e ->
  e <= fexp prec emax (Zdigits2 q + e) ->
  let r := binary_round_aux prec emax false q e lx in
  valid_binary r = true /\
  SFleb (S754_zero false) r = true /\
  SFleb r (S754_finite false 4503599627370496 (-52)) = true.
Proof.
  intros [Hq0 Hq] He Hcanon. rewrite fexp_eq in Hcanon.
  assert (Hs : 0 <= - e).
  { destruct (Z.le_gt_cases 0 (- e)); [done|]. rewrite Z.pow_neg_r in Hq; lia. }
  pose proof (Zdigits2_nonneg q) as Hd0.
  assert (Hdq : Zdigits2 q <= - e).
  { destruct (Z.eq_dec q 0) as [->|]; [simpl; lia|].
    pose proof (Zdigits2_bounds q ltac:(lia)) as [Hlo _].
    destruct (Z.le_gt_cases (Zdigits2 q) (- e)); [done|].
    assert (2 ^ (- e) <= 2 ^ (Zdigits2 q - 1)) by (apply Z.pow_le_mono_r; lia). lia. }
  set (t1 := Z.max (Zdigits2 q + e - 53) (-1074)) in *.
  intros r. subst r. unfold binary_round_aux.
  assert (H1 : exists mrs,
             shr_fexp prec emax q e lx = (mrs, t1) /\ 0 <= shr_m mrs < 2 ^ 53 /\
             (t1 = -1074 \/ 2 ^ 52 <= shr_m mrs)).
  { unfold shr_fexp, shr. rewrite fexp_eq. fold t1.
    destruct (t1 - e) as [|p|p] eqn:Hn; [| |lia].
    - assert (t1 = e) as Ht by lia. eexists. split; [by rewrite Ht|].
      rewrite shr_m_of_loc.
      assert (Zdigits2 q <= 53) by lia.
      destruct (Z.eq_dec q 0) as [->|]; [simpl in *; lia|].
      pose proof (Zdigits2_bounds q ltac:(lia)) as [Hlo Hhi].
      split.
      + assert (2 ^ Zdigits2 q <= 2 ^ 53) by (apply Z.pow_le_mono_r; lia). lia.
      + destruct (Z.eq_dec t1 (-1074)); [by left|right].
        assert (Zdigits2 q = 53) as Hd by lia. by rewrite Hd in Hlo.
    - eexists. split; [f_equal; lia|].
      rewrite iter_pos_nat, iter_shr_m, shr_m_of_loc, positive_nat_Z
        by (rewrite shr_m_of_loc; lia).
      pow2_pos (Z.pos p).
      assert (0 <= q / 2 ^ Z.pos p) by (apply Z.div_pos; lia).
      destruct (Z.eq_dec q 0) as [->|Hq1].
      { rewrite Z.div_0_l by lia. simpl in *. lia. }
      pose proof (Zdigits2_bounds q ltac:(lia)) as [Hlo Hhi].
      assert (Hp : Zdigits2 q - 53 <= Z.pos p) by lia.
      split; [split; [done|]|].
      + apply Z.div_lt_upper_bound; [done|]. rewrite <- Z.pow_add_r by lia.
        assert (2 ^ Zdigits2 q <= 2 ^ (Z.pos p + 53)) by (apply Z.pow_le_mono_r; lia).
        lia.
      + destruct (Z.eq_dec t1 (-1074)); [by left|right].
        assert (Z.pos p = Zdigits2 q - 53) as -> by lia.
        apply Z.div_le_lower_bound; [lia|]. rewrite <- Z.pow_add_r by lia.
        by replace (Zdigits2 q - 53 + 52) with (Zdigits2 q - 1) by lia. }
  destruct H1 as (mrs & -> & [Hm0 Hm1] & Hnorm).
  pose proof (round_nearest_even_bounds (shr_m mrs) (loc_of_shr_record mrs)) as Hr.
  set (m2 := round_nearest_even _ _) in *.
  assert (Ht1 : -1074 <= t1 <= -53) by lia.
  destruct (second_phase_mantissa m2 t1 ltac:(lia) ltac:(lia)) as (mrs' & -> & Hm').
  rewrite Hm'.
  destruct (Z.eqb_spec m2 (2 ^ 53)) as [Heq|Hne].
  - change (2 ^ 52) with (Z.pos 4503599627370496).
    assert ((t1 + 1 <=? emax - prec) = true) as -> by (apply Z.leb_le; unfold emax, prec; lia).
    split; [|split; [done|]].
    + unfold SpecFloat.valid_binary, bounded, canonical_mantissa. rewrite fexp_eq.
      change (Z.pos (digits2_pos 4503599627370496)) with 53.
      apply andb_true_iff. split; [apply Z.eqb_eq; lia|apply Z.leb_le; unfold emax, prec; lia].
    + unfold SFleb, SFcompare.
      destruct (Z.compare_spec (t1 + 1) (-52)); [done|done|lia].
  - rewrite Z.add_0_r. destruct m2 as [|m|m] eqn:Em2; [done| |lia].
    assert ((t1 <=? emax - prec) = true) as -> by (apply Z.leb_le; unfold emax, prec; lia).
    split; [|split; [done|]].
    + unfold SpecFloat.valid_binary, bounded, canonical_mantissa. rewrite fexp_eq.
      change (Z.pos (digits2_pos m)) with (Zdigits2 (Z.pos m)).
      pose proof (Zdigits2_bounds (Z.pos m) ltac:(lia)) as [Hlo Hhi].
      assert (Hd53 : Zdigits2 (Z.pos m) <= 53).
      { destruct (Z.le_gt_cases (Zdigits2 (Z.pos m)) 53); [done|].
        assert (2 ^ 53 <= 2 ^ (Zdigits2 (Z.pos m) - 1)) by (apply Z.pow_le_mono_r; lia).
        lia. }
      apply andb_true_iff. split; [|apply Z.leb_le; unfold emax, prec; lia].
      apply Z.eqb_eq. destruct Hnorm as [Hsub|Hbig]; [lia|].
      assert (53 <= Zdigits2 (Z.pos m)); [|lia].
      destruct (Z.le_gt_cases 53 (Zdigits2 (Z.pos m))); [done|].
      assert (2 ^ Zdigits2 (Z.pos m) <= 2 ^ 52) by (apply Z.pow_le_mono_r; lia). lia.
    + unfold SFleb, SFcompare.
      destruct (Z.compare_spec t1 (-52)); [lia|done|lia].
Qed.

Lemma SFdiv_int_unit (i n : positive) :
  (i < n)%positive ->
  let r := SFdiv prec emax (S754_finite false i 0) (S754_finite false n 0) in
  valid_binary r = true /\
  SFleb (S754_zero false) r = true /\
  SFleb r (S754_finite false 4503599627370496 (-52)) = true.
Proof.
  intros Hin. unfold SFdiv, SFdiv_core_binary. rewrite fexp_eq.
  pose proof (Zdigits2_mono (Zpos i) (Zpos n) ltac:(lia)) as Hd.
  pose proof (Zdigits2_bounds (Zpos i) ltac:(lia)) as [Hilo _].
  pose proof (Zdigits2_bounds (Zpos n) ltac:(lia)) as [_ Hnhi].
  assert (0 < Zdigits2 (Z.pos i)) by (simpl; lia).
  set (d1 := Zdigits2 (Z.pos i)) in *. set (d2 := Zdigits2 (Z.pos n)) in *.
  set (e := Z.min _ _).
  assert (He : -1074 <= e <= -53) by (unfold e; lia).
  replace (0 - 0 - e) with (- e) by lia.
  destruct (- e) as [|p|p] eqn:Hs; [lia| |lia].
  rewrite Z.shiftl_mul_pow2 by lia.
  pose proof (Z_div_mod (Z.pos i * 2 ^ Z.pos p) (Z.pos n) ltac:(lia)) as Hdm.
  destruct (Z.div_eucl _ _) as [q r]. destruct Hdm as [Hq Hr].
  pow2_pos (Z.pos p).
  assert (Hq0 : 0 <= q) by nia.
  assert (Hq1 : q < 2 ^ Z.pos p) by nia.
  apply binary_round_aux_unit; [by rewrite Hs|lia|].
  rewrite fexp_eq.
  destruct (Z.eq_dec e (-1074)) as [->|Hne]; [lia|].
  assert (Hp : Z.pos p = 53 + d2 - d1) by (unfold e in *; lia).
  assert (Hbig : 2 ^ 52 <= q).
  { destruct (Z.le_gt_cases (2 ^ 52) q); [done|]. exfalso.
    assert (Hpow : 2 ^ Z.pos p * 2 ^ (d1 - 1) = 2 ^ 52 * 2 ^ d2).
    { rewrite <- !Z.pow_add_r by lia. f_equal. lia. }
    assert (2 ^ 52 * 2 ^ d2 <= Z.pos i * 2 ^ Z.pos p) by nia.
    assert (Z.pos n * q + r < Z.pos n * 2 ^ 52) by nia.
    assert (0 < 2 ^ 52) by lia. nia. }
  assert (53 <= Zdigits2 q); [|lia].
  pose proof (Zdigits2_bounds q ltac:(lia)) as [_ Hqhi].
  destruct (Z.le_gt_cases 53 (Zdigits2 q)); [done|].
  assert (2 ^ Zdigits2 q <= 2 ^ 52) by (apply Z.pow_le_mono_r; lia). lia.
Qed.

(** Every quotient [i / n] with [0 <= i <= n] is a float between 0 and 1. *)
Lemma int_truediv_unit (i n : Z) :
  0 <= i <= n -> 0 < n ->
  exists t, int_truediv i n = Ok t /\
            (0 <=? t)%float = true /\ (t <=? 1)%float = true.
Proof.
  intros Hi Hn.
  destruct (Z.eq_dec i 0) as [->|Hi0].
  { exists 0%float. by rewrite int_truediv_zero. }
  destruct (Z.eq_dec i n) as [->|Hin].
  { exists 1%float. by rewrite int_truediv_self. }
  destruct n as [|n|n]; [lia| |lia]. destruct i as [|i|i]; [lia| |lia].
  unfold int_truediv. simpl Z.abs. simpl Z.to_pos. simpl Z.ltb.
  destruct (SFdiv_int_unit i n ltac:(lia)) as (Hv & H0 & H1).
  set (r := SFdiv _ _ _ _) in *.
  assert (Hr : Prim2SF (SF2Prim r) = r) by (by apply Prim2SF_SF2Prim).
  exists (SF2Prim r). split.
  - by destruct r as [| [] | |].
  - rewrite !leb_spec, Hr. done.
Qed.

(** X6: every sampled point is the point of the curve at a parameter
    between 0 and 1, scaled: the curve is never asked for a point outside
    its parameter range. *)
Theorem sample_parameters_in_range (path : Path) (scale : float) (N : Z)
    (pts : list point) (p : point) :
  0 < N ->
  polyline_points path scale N = Ok pts ->
  p ∈ pts ->
  exists t, (0 <=? t)%float = true /\ (t <=? 1)%float = true /\
            p = ((real (Path_point path t) * scale)%float,
                 (imag (Path_point path t) * scale)%float).
Proof.
  intros HN Hp [k Hk]%list_elem_of_lookup.
  destruct (polyline_points_defined path scale N HN) as (pts' & Hp' & Hlen & Hnth).
  assert (pts' = pts) as -> by congruence.
  pose proof (lookup_lt_Some _ _ _ Hk) as Hlt.
  destruct (Hnth (Z.of_nat k) ltac:(lia)) as (t & Ht & Hl).
  destruct (int_truediv_unit (Z.of_nat k) N ltac:(lia) HN) as (t' & Ht' & H0 & H1).
  assert (t' = t) as -> by congruence.
  exists t. rewrite Nat2Z.id in Hl. split; [done|]. split; [done|].
  assert (Heq : Some p = Some ((real (Path_point path t) * scale)%float,
                               (imag (Path_point path t) * scale)%float))
    by (etrans; [symmetry; exact Hk|exact Hl]).
  by injection Heq.
Qed.

Lemma sample_parameters_in_range_witness :
  exists t, (0 <=? t)%float = true /\ (t <=? 1)%float = true /\
            (21.6, 0)%float = ((real (Path_point segment_path t) * 1.8)%float,
                               (imag (Path_point segment_path t) * 1.8)%float).
Proof.
  refine (sample_parameters_in_range segment_path 1.8 2
            [(0, 0); (21.6, 0); (43.2, 0)]%float (21.6, 0)%float _ _ _).
  - lia.
  - vm_compute. reflexivity.
  - apply list_elem_of_lookup. by exists 1%nat.
Defined.

(** X7: the sampled points start at the curve's point of parameter 0 and end
    at its point of parameter 1, both scaled, for every sample count. *)
Theorem polyline_points_endpoints (path : Path) (scale : float) (N : Z)
    (pts : list point) :
  0 < N ->
  polyline_points path scale N = Ok pts ->
  head pts = Some ((real (Path_point path 0) * scale)%float,
                   (imag (Path_point path 0) * scale)%float) /\
  last pts = Some ((real (Path_point path 1) * scale)%float,
                   (imag (Path_point path 1) * scale)%float).
Proof.
  intros HN Hp.
  destruct (polyline_points_defined path scale N HN) as (pts' & Hp' & Hlen & Hnth).
  assert (pts' = pts) as -> by congruence.
  split.
  - destruct (Hnth 0 ltac:(lia)) as (t & Ht & H0).
    rewrite int_truediv_zero in Ht by done. injection Ht as <-.
    by rewrite head_lookup.
  - destruct (Hnth N ltac:(lia)) as (t & Ht & H1).
    rewrite int_truediv_self in Ht by done. injection Ht as <-.
    rewrite last_lookup, Hlen. rewrite <- H1. f_equal. lia.
Qed.

Lemma polyline_points_endpoints_witness :
  head [(0, 0); (21.6, 0); (43.2, 0)]%float = Some ((24 * 0 * 1.8)%float, (0 * 1.8)%float) /\
  last [(0, 0); (21.6, 0); (43.2, 0)]%float = Some ((24 * 1 * 1.8)%float, (0 * 1.8)%float).
Proof.
  refine (polyline_points_endpoints segment_path 1.8 2 _ _ _); [lia|].
  vm_compute. reflexivity.
Defined.

(** ** More on a conversion *)

Lemma convert_path_effect (w : float) (vb : list string) (i : nat) (path : Path)
    (st st' : world) (r : result unit) :
  convert_path w vb i path st = (st', r) ->
  exists added lines,
    msp st' = msp st ++ added /\ stdout st' = stdout st ++ lines /\
    Forall2 reports lines added /\
    Forall (fun pl => (2 <= length pl)%nat) added /\
    (length added <= 1)%nat /\
    (r = Ok tt -> added = option_list (polyline_of w vb path)).
Proof.
  unfold convert_path, polyline_of, mbind, lift.
  destruct (scale_factor w vb) as [scale|e].
  2:{ intros [= <- <-]. exists [], []. rewrite !app_nil_r. repeat split; first [done | simpl; lia | constructor]. }
  destruct (num_samples _) as [n|e].
  2:{ intros [= <- <-]. exists [], []. rewrite !app_nil_r. repeat split; first [done | simpl; lia | constructor]. }
  destruct (polyline_points path scale n) as [pts|e].
  2:{ intros [= <- <-]. exists [], []. rewrite !app_nil_r. repeat split; first [done | simpl; lia | constructor]. }
  unfold emit. destruct (Nat.ltb_spec 1 (length (unique_points pts))) as [Hlen|Hlen].
  - unfold mbind, add_lwpolyline, print. simpl. intros [= <- <-].
    exists [unique_points pts], [PathLine i (path_length_mm path scale)
                                   (length (unique_points pts))].
    simpl. repeat split; [|by constructor|done].
    constructor; [by eexists _, _|constructor].
  - intros [= <- <-]. exists [], []. rewrite !app_nil_r. repeat split; first [done | simpl; lia | constructor].
Qed.

Lemma for_enumerate_effect (w : float) (vb : list string) (paths : list Path) :
  forall (i : nat) (st st' : world) (r : result unit),
    for_enumerate i paths (convert_path w vb) st = (st', r) ->
    exists added lines,
      msp st' = msp st ++ added /\ stdout st' = stdout st ++ lines /\
      Forall2 reports lines added /\
      Forall (fun pl => (2 <= length pl)%nat) added /\
      (length added <= length paths)%nat /\
      (r = Ok tt -> added = omap (polyline_of w vb) paths).
Proof.
  induction paths as [|path paths IH]; intros i st st' r; simpl.
  - intros [= <- <-]. exists [], []. rewrite !app_nil_r. repeat split; first [done | simpl; lia | constructor].
  - unfold mbind at 1.
    destruct (convert_path w vb i path st) as [st1 r1] eqn:H1.
    destruct (convert_path_effect _ _ _ _ _ _ _ H1)
      as (a1 & l1 & Hm1 & Hs1 & Hr1 & Hf1 & Hl1 & Ho1).
    destruct r1 as [[]|e].
    + intros H2. destruct (IH _ _ _ _ H2) as (a2 & l2 & Hm2 & Hs2 & Hr2 & Hf2 & Hl2 & Ho2).
      exists (a1 ++ a2), (l1 ++ l2).
      rewrite Hm2, Hm1, Hs2, Hs1, !app_assoc. repeat split.
      * by apply Forall2_app.
      * by apply Forall_app.
      * rewrite length_app. lia.
      * intros Hr. rewrite (Ho1 eq_refl), (Ho2 Hr).
        by destruct (polyline_of w vb path).
    + intros [= <- <-]. exists a1, l1. repeat split; try done. lia.
Qed.

Lemma convert_success (filename : string) (paths : list Path)
    (svg_attributes : gmap string string) (out : list line) (st : world) :
  convert filename paths svg_attributes (World [] out) = (st, Ok tt) ->
  exists w h lines,
    svg_width_mm svg_attributes = Ok w /\ svg_height_mm svg_attributes = Ok h /\
    msp st = omap (polyline_of w (viewbox svg_attributes)) paths /\
    stdout st = out ++ SvgLine filename w h :: lines ++ [ConvertedLine filename] /\
    Forall2 reports lines (msp st) /\
    Forall (fun pl => (2 <= length pl)%nat) (msp st) /\
    (length (msp st) <= length paths)%nat.
Proof.
  unfold convert, mbind, lift.
  destruct (svg_width_mm svg_attributes) as [w|]; [|done].
  destruct (svg_height_mm svg_attributes) as [h|]; [|done].
  unfold print at 1. simpl.
  destruct (for_enumerate _ _ _ _) as [st1 r1] eqn:Hloop.
  destruct (for_enumerate_effect _ _ _ _ _ _ _ Hloop)
    as (added & lines & Hm & Hs & Hr & Hf & Hl & Ho).
  simpl in Hm, Hs. destruct r1 as [[]|]; [|done].
  unfold print. intros [= <-]. simpl.
  exists w, h, lines. rewrite Hm, Hs. specialize (Ho eq_refl).
  repeat split; try done. by rewrite <- !app_assoc.
Qed.

(** X8: the document saved for a file holds, in the order of the paths, the
    deduplicated chain of every path whose chain has two points or more, and
    nothing else: every polyline has at least two points, and there is at
    most one per path. *)
Theorem document_polylines (filename : string) (paths : list Path)
    (svg_attributes : gmap string string) (w : float) (doc : list (list point)) :
  svg_width_mm svg_attributes = Ok w ->
  saved filename paths svg_attributes = Ok doc ->
  doc = omap (polyline_of w (viewbox svg_attributes)) paths /\
  Forall (fun pl => (2 <= length pl)%nat) doc /\
  (length doc <= length paths)%nat.
Proof.
  intros Hw. unfold saved, new.
  destruct (convert _ _ _ _) as [st [[]|]] eqn:Hc; [|done].
  destruct (convert_success _ _ _ _ _ Hc) as (w' & h & lines & Hw' & _ & Hm & _ & _ & Hf & Hl).
  intros [= <-]. assert (w' = w) as -> by congruence. done.
Qed.

Lemma document_polylines_witness :
  [[(0, 0); (18, 0)]]%float = omap (polyline_of 21.6 (viewbox ∅)) [dot_path; jump_path] /\
  Forall (fun pl => (2 <= length pl)%nat) [[(0, 0); (18, 0)]%float] /\
  (length [[(0, 0); (18, 0)]%float] <= length [dot_path; jump_path])%nat.
Proof.
  refine (document_polylines "a.svg" [dot_path; jump_path] ∅ 21.6 _ eq_refl _).
  vm_compute. reflexivity.
Defined.

(** X9: a conversion that succeeds prints the line of the file, then one
    line per polyline added, each with the number of points of its polyline
    and in the order of the polylines, then the closing line. *)
Theorem console_report (filename : string) (paths : list Path)
    (svg_attributes : gmap string string) (st : world) :
  convert filename paths svg_attributes new = (st, Ok tt) ->
  exists w h lines,
    svg_width_mm svg_attributes = Ok w /\ svg_height_mm svg_attributes = Ok h /\
    stdout st = SvgLine filename w h :: lines ++ [ConvertedLine filename] /\
    Forall2 reports lines (msp st).
Proof.
  intros Hc. destruct (convert_success _ _ _ _ _ Hc)
    as (w & h & lines & Hw & Hh & _ & Hs & Hr & _).
  by exists w, h, lines.
Qed.

Lemma console_report_witness :
  exists w h lines,
    svg_width_mm ∅ = Ok w /\ svg_height_mm ∅ = Ok h /\
    [SvgLine "a.svg" 21.6 37.8; PathLine 1 0 2; ConvertedLine "a.svg"]
    = SvgLine "a.svg" w h :: lines ++ [ConvertedLine "a.svg"] /\
    Forall2 reports lines [[(0, 0); (18, 0)]%float].
Proof.
  refine (console_report "a.svg" [dot_path; jump_path] ∅
            (World [[(0, 0); (18, 0)]%float]
               [SvgLine "a.svg" 21.6 37.8; PathLine 1 0 2; ConvertedLine "a.svg"]) _).
  vm_compute. reflexivity.
Defined.

(** X10: a document without paths converts to an empty model space whenever
    its width and height parse: its viewBox is never looked at. *)
Theorem no_paths (filename : string) (svg_attributes : gmap string string)
    (w h : float) :
  svg_width_mm svg_attributes = Ok w ->
  svg_height_mm svg_attributes = Ok h ->
  convert filename [] svg_attributes new
  = (World [] [SvgLine filename w h; ConvertedLine filename], Ok tt) /\
  saved filename [] svg_attributes = Ok [].
Proof.
  intros Hw Hh. unfold saved, convert, mbind, lift. by rewrite Hw, Hh.
Qed.

Lemma no_paths_witness :
  saved "a.svg" [] {[ "viewBox" := "not a viewbox" ]} = Ok [].
Proof.
  exact (proj2 (no_paths "a.svg" {[ "viewBox" := "not a viewbox" ]} 21.6 37.8
                  eq_refl eq_refl)).
Defined.

Lemma chain_after_near (p0 : point) (pts : list point) :
  Forall (fun p => far p p0 = false) pts -> chain_after (Some p0) pts = [].
Proof. induction 1 as [|p pts Hp _ IH]; simpl; [done|]. by rewrite Hp. Qed.

(** X11: a path whose sampled points all lie within the tolerance of the
    first one on both axes keeps that point only: once its samples have been
    taken, the loop body adds no polyline, prints nothing and raises
    nothing. *)
Theorem short_path_dropped (w : float) (vb : list string) (path_idx : nat)
    (path : Path) (scale : float) (n : Z) (p0 : point) (pts : list point)
    (st : world) :
  scale_factor w vb = Ok scale ->
  num_samples (path_length_mm path scale) = Ok n ->
  polyline_points path scale n = Ok (p0 :: pts) ->
  Forall (fun p => far p p0 = false) pts ->
  unique_points (p0 :: pts) = [p0] /\
  convert_path w vb path_idx path st = (st, Ok tt) /\
  polyline_of w vb path = None.
Proof.
  intros Hs Hn Hp Hnear.
  assert (Hu : unique_points (p0 :: pts) = [p0]).
  { rewrite unique_points_chain. simpl. by rewrite chain_after_near. }
  split; [done|].
  unfold convert_path, polyline_of, mbind, lift, emit.
  rewrite Hs, Hn, Hp, Hu. simpl. by destruct st.
Qed.

Lemma short_path_dropped_witness :
  convert_path 21.6 default_viewbox 0 short_path new = (new, Ok tt) /\
  polyline_of 21.6 default_viewbox short_path = None.
Proof.
  refine (proj2 (short_path_dropped 21.6 default_viewbox 0 short_path 1.8 2
                   (0.004 * 0 * 1.8, 0 * 1.8)%float
                   [(0.004 * 0.5 * 1.8, 0 * 1.8); (0.004 * 1 * 1.8, 0 * 1.8)]%float
                   new eq_refl eq_refl _ _)).
  - vm_compute. reflexivity.
  - repeat constructor.
Defined.

(** ** The attributes and their errors *)

Lemma length_append_string (s t : string) :
  String.length (s +:+ t) = (String.length s + String.length t)%nat.
Proof. induction s as [|c s IH]; simpl; [done|]. by rewrite IH. Qed.

Lemma substring_skip (s t : string) (k : nat) :
  String.substring (String.length s) k (s +:+ t) = String.substring 0 k t.
Proof. induction s as [|c s IH]; simpl; [done|]. apply IH. Qed.

Lemma substring_take (s t : string) :
  String.substring 0 (String.length s) (s +:+ t) = s.
Proof.
  induction s as [|c s IH]; simpl.
  - by destruct t.
  - by rewrite IH.
Qed.

Lemma substring_all (s : string) : String.substring 0 (String.length s) s = s.
Proof. induction s as [|c s IH]; simpl; [done|]. by rewrite IH. Qed.

Lemma endswith_app (s t : string) : endswith (s +:+ t) t = true.
Proof.
  unfold endswith. rewrite length_append_string.
  replace (String.length s + String.length t - String.length t)%nat
    with (String.length s) by lia.
  rewrite substring_skip, substring_all, String.eqb_refl.
  apply andb_true_iff. split; [|done]. apply Nat.leb_le. lia.
Qed.

Lemma drop_last_app (s t : string) : drop_last (String.length t) (s +:+ t) = s.
Proof.
  unfold drop_last. rewrite length_append_string.
  replace (String.length s + String.length t - String.length t)%nat
    with (String.length s) by lia.
  apply substring_take.
Qed.

(** X12: a trailing mm is removed before parsing and nothing else is: a
    length written [s] followed by mm parses as [s] does, to the same float
    or with the same error. *)
Theorem mm_suffix_ignored (s : string) :
  mm_to_float (s +:+ "mm") = float_of_str s.
Proof.
  unfold mm_to_float. rewrite endswith_app.
  exact (f_equal float_of_str (drop_last_app s "mm")).
Qed.

(** X13: missing attributes: without a width the width is 21.6, without a
    height the height is 37.8, and without a viewBox the viewbox width is 12,
    so that a document with none of them has scale factor 1.8. *)
Theorem defaults (svg_attributes : gmap string string) :
  (svg_attributes !! "width" = None -> svg_width_mm svg_attributes = Ok 21.6%float) /\
  (svg_attributes !! "height" = None -> svg_height_mm svg_attributes = Ok 37.8%float) /\
  (svg_attributes !! "viewBox" = None ->
   viewbox svg_attributes = default_viewbox /\
   forall w, scale_factor w (viewbox svg_attributes) = Ok (w / 12)%float) /\
  (svg_attributes !! "width" = None -> svg_attributes !! "viewBox" = None ->
   scale_factor 21.6 (viewbox svg_attributes) = Ok 1.8%float).
Proof.
  assert (Hvb : svg_attributes !! "viewBox" = None ->
                viewbox svg_attributes = default_viewbox).
  { intros H. unfold viewbox. by rewrite H. }
  split; [|split; [|split]].
  - intros H. unfold svg_width_mm, width. rewrite H. by vm_compute.
  - intros H. unfold svg_height_mm, height. rewrite H. by vm_compute.
  - intros H. split; [by apply Hvb|]. intros w. by rewrite (Hvb H).
  - intros _ H. by rewrite (Hvb H).
Qed.

Lemma defaults_witness :
  svg_width_mm {[ "id" := "drawing" ]} = Ok 21.6%float /\
  scale_factor 21.6 (viewbox {[ "id" := "drawing" ]}) = Ok 1.8%float.
Proof.
  pose proof (defaults {[ "id" := "drawing" ]}) as (Hw & _ & _ & Hs).
  exact (conj (Hw eq_refl) (Hs eq_refl eq_refl)).
Defined.

Lemma loop_first_error (w : float) (vb : list string) (path : Path)
    (paths : list Path) (e : exn) (i : nat) (st : world) :
  scale_factor w vb = Raise e ->
  for_enumerate i (path :: paths) (convert_path w vb) st = (st, Raise e).
Proof.
  intros Hs. simpl. unfold mbind, convert_path, mbind, lift. by rewrite Hs.
Qed.

(** X14: a malformed viewBox: when the document has a path and its width and
    height parse, a viewBox of fewer than three fields ends the conversion
    with IndexError and a viewBox whose third field is zero ends it with
    ZeroDivisionError; nothing is saved. *)
Theorem viewbox_errors (filename : string) (path : Path) (paths : list Path)
    (svg_attributes : gmap string string) (w h : float) :
  svg_width_mm svg_attributes = Ok w ->
  svg_height_mm svg_attributes = Ok h ->
  ((length (viewbox svg_attributes) < 3)%nat ->
   saved filename (path :: paths) svg_attributes = Raise IndexError) /\
  (forall v d, viewbox svg_attributes !! 2%nat = Some v ->
               float_of_str v = Ok d -> (d =? 0)%float = true ->
               saved filename (path :: paths) svg_attributes = Raise ZeroDivisionError).
Proof.
  intros Hw Hh.
  assert (Hraise : forall e, scale_factor w (viewbox svg_attributes) = Raise e ->
                             saved filename (path :: paths) svg_attributes = Raise e).
  { intros e He. unfold saved, convert, mbind, lift. rewrite Hw, Hh.
    unfold print at 1. cbn [fst snd msp stdout new].
    by rewrite (loop_first_error _ _ _ _ _ _ _ He). }
  split.
  - intros Hlen. apply Hraise. unfold scale_factor, getitem.
    by rewrite lookup_ge_None_2 by lia.
  - intros v d Hv Hd Hz. apply Hraise. unfold scale_factor, getitem, float_truediv.
    rewrite Hv. simpl. rewrite Hd. simpl. by rewrite Hz.
Qed.

Lemma viewbox_errors_witness :
  saved "a.svg" [dot_path] {[ "viewBox" := "0 0" ]} = Raise IndexError /\
  saved "a.svg" [dot_path] {[ "viewBox" := "0 0 -0.0 21" ]} = Raise ZeroDivisionError.
Proof.
  split.
  - refine (proj1 (viewbox_errors "a.svg" dot_path [] {[ "viewBox" := "0 0" ]}
                     21.6 37.8 eq_refl eq_refl) _).
    vm_compute. lia.
  - refine (proj2 (viewbox_errors "a.svg" dot_path [] {[ "viewBox" := "0 0 -0.0 21" ]}
                     21.6 37.8 eq_refl eq_refl) "-0.0" (-0)%float _ eq_refl eq_refl).
    vm_compute. reflexivity.
Defined.

(** ** The loop over the files *)

Lemma convert_path_frame (out : list line) (w : float) (vb : list string) (i : nat)
    (path : Path) (st : world) :
  convert_path w vb i path (after out st)
  = (after out (convert_path w vb i path st).1, (convert_path w vb i path st).2).
Proof.
  unfold convert_path, mbind, lift.
  destruct (scale_factor w vb) as [scale|]; [|done].
  destruct (num_samples _) as [n|]; [|done].
  destruct (polyline_points path scale n) as [pts|]; [|done].
  unfold emit. destruct (1 <? length (unique_points pts))%nat; [|done].
  unfold mbind, add_lwpolyline, print, after. simpl. by rewrite app_assoc.
Qed.

Lemma for_enumerate_frame (out : list line) (w : float) (vb : list string)
    (paths : list Path) :
  forall (i : nat) (st : world),
    for_enumerate i paths (convert_path w vb) (after out st)
    = (after out (for_enumerate i paths (convert_path w vb) st).1,
       (for_enumerate i paths (convert_path w vb) st).2).
Proof.
  induction paths as [|path paths IH]; intros i st; simpl; [done|].
  unfold mbind. rewrite convert_path_frame.
  destruct (convert_path w vb i path st) as [st1 [[]|e]]; simpl; [|done].
  apply IH.
Qed.

(** Lines printed before a conversion stay before its own lines and change
    nothing else. *)
Lemma convert_frame (out : list line) (filename : string) (paths : list Path)
    (svg_attributes : gmap string string) :
  convert filename paths svg_attributes (World [] out)
  = (after out (convert filename paths svg_attributes new).1,
     (convert filename paths svg_attributes new).2).
Proof.
  unfold convert, mbind, lift, new.
  destruct (svg_width_mm svg_attributes) as [w|]; [|by unfold after; rewrite app_nil_r].
  destruct (svg_height_mm svg_attributes) as [h|]; [|by unfold after; rewrite app_nil_r].
  unfold print at 1 3. simpl.
  change (World [] (out ++ [SvgLine filename w h]))
    with (after out (World [] [SvgLine filename w h])).
  rewrite for_enumerate_frame.
  destruct (for_enumerate _ _ _ _) as [st1 [[]|e]]; simpl; [|done].
  unfold print, after. simpl. by rewrite app_assoc.
Qed.

Lemma convert_file_spec (svg2paths2 : string -> list Path * gmap string string)
    (filename : string) (st : outcome) :
  exists out,
    convert_file svg2paths2 filename st
    = match document_of svg2paths2 filename with
      | Ok doc => (Outcome (saved_files st ++ [(dxf_path filename, doc)]) out, Ok tt)
      | Raise e => (Outcome (saved_files st) out, Raise e)
      end.
Proof.
  unfold convert_file, document_of, saved.
  destruct (svg2paths2 (svg_path filename)) as [paths attrs]. simpl.
  rewrite convert_frame.
  destruct (convert filename paths attrs new) as [w [[]|e]]; simpl; by eexists.
Qed.

Lemma convert_all_app (svg2paths2 : string -> list Path * gmap string string)
    (l1 l2 : list string) (st : outcome) :
  convert_all svg2paths2 (l1 ++ l2) st
  = match convert_all svg2paths2 l1 st with
    | (st1, Ok _) => convert_all svg2paths2 l2 st1
    | (st1, Raise e) => (st1, Raise e)
    end.
Proof.
  revert st; induction l1 as [|f l1 IH]; intros st; simpl; [done|].
  destruct (is_svg f); [|apply IH].
  destruct (convert_file svg2paths2 f st) as [st' [[]|e]]; [apply IH|done].
Qed.

Lemma files_after_unchanged (log : list (string * list (list point))) (p : string) :
  forall fs, Forall (fun entry => entry.1 <> p) log -> files_after log fs !! p = fs !! p.
Proof.
  induction log as [|entry log IH]; intros fs Hlog; simpl; [done|].
  apply Forall_cons in Hlog as [Hentry Hlog].
  unfold files_after in IH. rewrite IH by done. by apply lookup_insert_ne.
Qed.

(** The file at a path is the document of the last call at that path. *)
Lemma files_after_last (log1 log2 : list (string * list (list point)))
    (entry : string * list (list point)) (fs : gmap string (list (list point))) :
  Forall (fun entry' => entry'.1 <> entry.1) log2 ->
  files_after (log1 ++ entry :: log2) fs !! entry.1 = Some entry.2.
Proof.
  intros Hlog2. unfold files_after. rewrite fold_left_app. simpl.
  fold (files_after log1 fs).
  rewrite (files_after_unchanged log2 entry.1 _ Hlog2). apply lookup_insert_eq.
Qed.

Lemma written_paths (svg2paths2 : string -> list Path * gmap string string)
    (converted : list string) (written : list (string * list (list point)))
    (p : string) :
  Forall2 (fun f entry => entry.1 = dxf_path f /\
                          document_of svg2paths2 f = Ok entry.2)
    converted written ->
  Forall (fun f => dxf_path f <> p) converted ->
  Forall (fun entry => entry.1 <> p) written.
Proof.
  induction 1 as [|f entry converted written [Hpath _] _ IH]; intros Hne; [done|].
  apply Forall_cons in Hne as [Hf Hne]. constructor; [by rewrite Hpath|by apply IH].
Qed.

(** X15: a run calls [doc.saveas] once for every name of the listing that
    ends in .svg in any case, in the order of the listing, at the DXF path of
    the name and with the document that the conversion of that file alone
    gives; other names are skipped.  When a conversion fails, the calls made
    are those of the names before the first one that fails.  After the run
    the file at a DXF path holds the document of the last converted name
    with that path, names with the same path replacing one another, and the
    files at other paths are as they were. *)
Theorem saved_files_spec (svg2paths2 : string -> list Path * gmap string string)
    (listing : list string) (st st' : outcome) (r : result unit) :
  convert_all svg2paths2 listing st = (st', r) ->
  exists converted written,
    saved_files st' = saved_files st ++ written /\
    Forall2 (fun f entry => entry.1 = dxf_path f /\
                            document_of svg2paths2 f = Ok entry.2)
      converted written /\
    match r with
    | Ok _ => converted = filter (fun f => is_svg f = true) listing
    | Raise e =>
        exists f following,
          filter (fun f => is_svg f = true) listing = converted ++ f :: following /\
          document_of svg2paths2 f = Raise e
    end /\
    (forall fs p,
        Forall (fun f => dxf_path f <> p) converted ->
        files_after written fs !! p = fs !! p) /\
    (forall fs before f following,
        converted = before ++ f :: following ->
        Forall (fun g => dxf_path g <> dxf_path f) following ->
        exists doc, document_of svg2paths2 f = Ok doc /\
                    files_after written fs !! dxf_path f = Some doc).
Proof.
  intros Hrun.
  assert (exists converted written,
    saved_files st' = saved_files st ++ written /\
    Forall2 (fun f entry => entry.1 = dxf_path f /\
                            document_of svg2paths2 f = Ok entry.2)
      converted written /\
    match r with
    | Ok _ => converted = filter (fun f => is_svg f = true) listing
    | Raise e =>
        exists f following,
          filter (fun f => is_svg f = true) listing = converted ++ f :: following /\
          document_of svg2paths2 f = Raise e
    end) as (converted & written & Hs & Hf & Hr).
  { revert st Hrun; induction listing as [|f listing IH]; intros st; simpl.
    - intros [= <- <-]. exists [], []. rewrite app_nil_r. by repeat split.
    - destruct (is_svg f) eqn:Hsvg.
      + rewrite filter_cons_True by done.
        destruct (convert_file_spec svg2paths2 f st) as [out ->].
        destruct (document_of svg2paths2 f) as [doc|e] eqn:Hdoc.
        * intros H. destruct (IH _ H) as (converted & written & Hs & Hf & Hr).
          exists (f :: converted), ((dxf_path f, doc) :: written).
          simpl in Hs. rewrite Hs, <- app_assoc. split; [done|].
          split; [by constructor|].
          destruct r as [[]|e]; [by rewrite Hr|].
          destruct Hr as (g & following & -> & Hg). by exists g, following.
        * intros [= <- <-]. exists [], []. rewrite app_nil_r.
          split; [done|]. split; [done|]. by exists f, (filter (fun f => is_svg f = true) listing).
      + rewrite filter_cons_False by (by rewrite Hsvg). apply IH. }
  exists converted, written. split; [done|]. split; [done|]. split; [done|]. split.
  - intros fs p Hne. apply files_after_unchanged.
    by apply (written_paths svg2paths2 converted).
  - intros fs before f following -> Hne.
    apply Forall2_app_inv_l in Hf as (w1 & w2 & _ & Hf & ->).
    apply Forall2_cons_inv_l in Hf as (entry & w3 & [Hpath Hdoc] & Hf & ->).
    exists entry.2. split; [done|]. rewrite <- Hpath. apply files_after_last.
    rewrite Hpath. by apply (written_paths svg2paths2 following).
Qed.

Lemma saved_files_spec_witness :
  (exists converted written,
     saved_files (convert_all shared_stem_parser shared_stem_listing (Outcome [] [])).1
     = [] ++ written /\
     Forall2 (fun f entry => entry.1 = dxf_path f /\
                             document_of shared_stem_parser f = Ok entry.2)
       converted written /\
     converted = filter (fun f => is_svg f = true) shared_stem_listing /\
     (forall fs p,
         Forall (fun f => dxf_path f <> p) converted ->
         files_after written fs !! p = fs !! p) /\
     (forall fs before f following,
         converted = before ++ f :: following ->
         Forall (fun g => dxf_path g <> dxf_path f) following ->
         exists doc, document_of shared_stem_parser f = Ok doc /\
                     files_after written fs !! dxf_path f = Some doc)) /\
  (exists converted written,
     saved_files (convert_all example_parser example_listing (Outcome [] [])).1
     = [] ++ written /\
     Forall2 (fun f entry => entry.1 = dxf_path f /\
                             document_of example_parser f = Ok entry.2)
       converted written /\
     (exists f following,
         filter (fun f => is_svg f = true) example_listing = converted ++ f :: following /\
         document_of example_parser f = Raise ValueError) /\
     (forall fs p,
         Forall (fun f => dxf_path f <> p) converted ->
         files_after written fs !! p = fs !! p) /\
     (forall fs before f following,
         converted = before ++ f :: following ->
         Forall (fun g => dxf_path g <> dxf_path f) following ->
         exists doc, document_of example_parser f = Ok doc /\
                     files_after written fs !! dxf_path f = Some doc)).
Proof.
  split.
  - refine (saved_files_spec shared_stem_parser shared_stem_listing (Outcome [] []) _
              (Ok tt) _).
    vm_compute. reflexivity.
  - refine (saved_files_spec example_parser example_listing (Outcome [] []) _
              (Raise ValueError) _).
    vm_compute. reflexivity.
Defined.

(** Two names that differ in the case of the extension only are saved at the
    same path: the second document replaces the first. *)
Example shared_stem_example :
  dxf_path "a.svg" = "./dxfs/a.dxf" /\ dxf_path "a.SVG" = "./dxfs/a.dxf" /\
  (exists polyline, document_of shared_stem_parser "a.svg" = Ok [polyline] /\
                    length polyline = 433%nat) /\
  document_of shared_stem_parser "a.SVG" = Ok [] /\
  files_after
    (saved_files (convert_all shared_stem_parser shared_stem_listing (Outcome [] [])).1)
    ∅ !! "./dxfs/a.dxf" = Some [].
Proof.
  split; [done|]. split; [done|]. split.
  - eexists. split; [vm_compute; reflexivity|done].
  - split; by vm_compute.
Qed.

(** X16: the first conversion that fails ends the run: its exception is the
    outcome of the run, no file is saved for its name, and the names after
    it are not converted. *)
Theorem first_failure_halts (svg2paths2 : string -> list Path * gmap string string)
    (before following : list string) (f : string) (e : exn) (st st1 : outcome) :
  convert_all svg2paths2 before st = (st1, Ok tt) ->
  is_svg f = true ->
  document_of svg2paths2 f = Raise e ->
  exists st2,
    convert_all svg2paths2 (before ++ f :: following) st = (st2, Raise e) /\
    saved_files st2 = saved_files st1.
Proof.
  intros Hb Hsvg Hdoc. rewrite convert_all_app, Hb. simpl. rewrite Hsvg.
  destruct (convert_file_spec svg2paths2 f st1) as [out ->]. rewrite Hdoc.
  by eexists.
Qed.

Lemma first_failure_halts_witness :
  exists st2,
    convert_all example_parser (["a.svg"; "notes.txt"; "B.SVG"] ++ "bad.svg" :: ["c.svg"])
      (Outcome [] [])
    = (st2, Raise ValueError) /\
    saved_files st2
    = saved_files (convert_all example_parser ["a.svg"; "notes.txt"; "B.SVG"]
                     (Outcome [] [])).1.
Proof.
  refine (first_failure_halts example_parser ["a.svg"; "notes.txt"; "B.SVG"] ["c.svg"]
            "bad.svg" ValueError (Outcome [] []) _ _ eq_refl eq_refl).
  vm_compute. reflexivity.
Defined.

(** *** The paths of a file *)

Lemma rfind_from_absent (c : ascii) (s : string) (i : Z) :
  contains c s = false -> rfind_from c s i = -1.
Proof.
  revert i; induction s as [|a s IH]; intros i; simpl; [done|].
  intros [Ha Hs]%orb_false_iff. by rewrite (IH _ Hs), Ha.
Qed.

Lemma rfind_from_last (c : ascii) (s t : string) (i : Z) :
  contains c t = false -> 0 <= i ->
  rfind_from c (s +:+ String c t) i = i + Z.of_nat (String.length s).
Proof.
  intros Ht. revert i; induction s as [|a s IH]; intros i Hi.
  - simpl. rewrite (rfind_from_absent _ _ _ Ht), Ascii.eqb_refl. simpl. lia.
  - change (rfind_from c (String a s +:+ String c t) i)
      with (let r := rfind_from c (s +:+ String c t) (i + 1) in
            if 0 <=? r then r else if Ascii.eqb a c then i else -1).
    rewrite IH by lia. cbv zeta. cbn [String.length].
    destruct (Z.leb_spec 0 (i + 1 + Z.of_nat (String.length s))); lia.
Qed.

Lemma contains_app (c : ascii) (s t : string) :
  contains c (s +:+ t) = contains c s || contains c t.
Proof. induction s as [|a s IH]; simpl; [done|]. by rewrite IH, orb_assoc. Qed.

Lemma lower_string_app (s t : string) :
  lower_string (s +:+ t) = lower_string s +:+ lower_string t.
Proof. induction s as [|a s IH]; simpl; [done|]. by rewrite IH. Qed.

Lemma svg_extension_chars (ext : string) (c : ascii) :
  lower_string ext = "svg" -> lower c = c -> contains c "svg" = false ->
  contains c ext = false.
Proof.
  intros Hext Hc Hsvg.
  destruct ext as [|c1 [|c2 [|c3 [|]]]]; try discriminate Hext.
  injection Hext as H1 H2 H3. simpl in *.
  destruct (Ascii.eqb_spec c1 c) as [->|];
    [rewrite Hc in H1; subst c; by vm_compute in Hsvg|].
  destruct (Ascii.eqb_spec c2 c) as [->|];
    [rewrite Hc in H2; subst c; by vm_compute in Hsvg|].
  destruct (Ascii.eqb_spec c3 c) as [->|];
    [rewrite Hc in H3; subst c; by vm_compute in Hsvg|].
  done.
Qed.

Lemma startswith_slash (s t : string) :
  contains "/" s = false -> startswith (s +:+ String "." t) "/" = false.
Proof.
  unfold startswith. destruct s as [|a s]; [done|].
  cbn [contains]. intros [Ha _]%orb_false_iff.
  change (String.prefix "/" (String a s +:+ String "." t))
    with (if ascii_dec "/" a then String.prefix "" (s +:+ String "." t) else false).
  destruct (ascii_dec "/" a) as [<-|]; [by rewrite Ascii.eqb_refl in Ha|done].
Qed.

Lemma path_join_folder (folder name t : string) :
  contains "/" name = false ->
  String.eqb folder "" || endswith folder "/" = false ->
  path_join folder (name +:+ String "." t) = folder +:+ "/" +:+ name +:+ String "." t.
Proof.
  intros Hname Hfolder. unfold path_join.
  by rewrite startswith_slash, Hfolder.
Qed.

Lemma slice_stem (stem t : string) :
  slice (stem +:+ t) 0 (Z.of_nat (String.length stem)) = stem.
Proof.
  unfold slice. rewrite Nat2Z.id. simpl. rewrite Nat.sub_0_r. apply substring_take.
Qed.

(** X17: the paths of a file: a name [stem.ext] whose extension is svg in any
    case passes the test on names, is read from the input folder, and is saved
    in the output folder under its stem followed by .dxf; when the stem
    consists of dots only (a hidden file), the whole name is kept before
    .dxf. *)
Theorem file_paths (stem ext : string) :
  contains "/" stem = false ->
  lower_string ext = "svg" ->
  is_svg (stem +:+ "." +:+ ext) = true /\
  svg_path (stem +:+ "." +:+ ext) = "./svgs/" +:+ stem +:+ "." +:+ ext /\
  dxf_path (stem +:+ "." +:+ ext)
  = "./dxfs/" +:+ (if has_non_dot stem then stem else stem +:+ "." +:+ ext) +:+ ".dxf".
Proof.
  intros Hstem Hext.
  assert (Hdot : contains "." ext = false)
    by (by apply svg_extension_chars).
  assert (Hsl : contains "/" ext = false)
    by (by apply svg_extension_chars).
  assert (Hname : contains "/" (stem +:+ "." +:+ ext) = false).
  { rewrite contains_app, Hstem. change ("." +:+ ext) with (String "." ext).
    cbn [contains]. by rewrite Hsl. }
  split; [|split].
  - unfold is_svg. rewrite lower_string_app.
    change ("." +:+ ext) with (String "." ext). cbn [lower_string]. rewrite Hext.
    apply (endswith_app (lower_string stem) ".svg").
  - unfold svg_path, input_folder. change ("." +:+ ext) with (String "." ext).
    by rewrite (path_join_folder "./svgs" stem ext).
  - unfold dxf_path, output_folder, splitext, rfind.
    rewrite (rfind_from_absent _ _ _ Hname).
    change ("." +:+ ext) with (String "." ext) in *.
    rewrite (rfind_from_last "." stem ext 0 Hdot) by lia.
    rewrite Z.add_0_l. change (-1 + 1) with 0. rewrite slice_stem.
    assert ((-1 <? Z.of_nat (String.length stem)) = true) as -> by (apply Z.ltb_lt; lia).
    destruct (has_non_dot stem); simpl andb; cbn [fst].
    + by rewrite (path_join_folder "./dxfs" stem "dxf").
    + by rewrite (path_join_folder "./dxfs" (stem +:+ String "." ext) "dxf").
Qed.

Lemma file_paths_witness :
  is_svg ("plan" +:+ "." +:+ "SVG") = true /\
  svg_path ("plan" +:+ "." +:+ "SVG") = "./svgs/" +:+ "plan" +:+ "." +:+ "SVG" /\
  dxf_path ("plan" +:+ "." +:+ "SVG")
  = "./dxfs/" +:+ (if has_non_dot "plan" then "plan" else "plan" +:+ "." +:+ "SVG")
      +:+ ".dxf".
Proof. exact (file_paths "plan" "SVG" eq_refl eq_refl). Defined.
